(** * Signaling relay of the file-transfer backend: model and properties

    Shallow embedding of [internal/websocket/server.go] (the signaling
    hub, the per-connection sessions and the connection handshake) and of
    the two [DeviceRepo] look-ups it relies on
    ([internal/repository], [GetByID] and [GetByToken]).

    Go values are modelled as follows.
    - [uuid.UUID] ([16]byte) is the 128-bit number its bytes spell, an [N].
    - [*Client] is an address into a heap of [Client] objects, so that two
      sessions of one device are told apart the way Go tells pointers apart.
    - a buffered channel of capacity 256 is its pending buffer plus a
      "closed" flag; a send on a closed channel and a second [close] panic.
    - writes to the transport, log lines and goroutine starts are appended
      to one trace, in program order.
    - the functions of [github.com/google/uuid] are not part of the
      repository; the development is parametric in them. *)

From Stdlib Require Import ZArith NArith Ascii.
From stdpp Require Import gmap strings list fin_maps.

Open Scope string_scope.
Open Scope list_scope.
Open Scope stdpp_scope.

(** ** Wire format *)

Record SDPMessage := {
  sdpType : string;
  sdpSDP : string
}.

Record ICECandidate := {
  iceCandidate : string;
  iceSDPMLineIndex : Z;
  iceSDPMid : string
}.

Record SignalingMessage := {
  Type_ : string;
  FromDeviceID : string;
  ToDeviceID : string;
  SDP : option SDPMessage;
  Candidate : option ICECandidate;
  Error : string;
  Data : string
}.

(** [SignalingMessage{Type: "error", Error: e}], every other field zero. *)
Definition errorMessage (e : string) : SignalingMessage :=
  {| Type_ := "error"; FromDeviceID := ""; ToDeviceID := "";
     SDP := None; Candidate := None; Error := e; Data := "" |}.

(** ** Identifiers, devices and the device repository *)

Abbreviation UUID := N (only parsing).

Record Device := {
  devID : UUID;
  devUserID : UUID;
  devName : string;
  devDeviceType : string;
  devDeviceToken : string;
  devLastSeenAt : Z;
  devCreatedAt : Z;
  devUpdatedAt : Z
}.

(** What [db.QueryRow(query, arg).Scan(...)] yields: a row, [sql.ErrNoRows],
    or any other error. *)
Inductive ScanResult :=
| RowFound (d : Device)
| ErrNoRows
| ScanErr (e : string).

(** [sql.DB] as far as [DeviceRepo] queries it: the outcome of the
    single-row select by primary key and by device token. *)
Record DeviceRepo := {
  QueryRowByID : UUID -> ScanResult;
  QueryRowByToken : string -> ScanResult
}.

(** The Go result pair of a look-up: the device pointer (nil as [None])
    and the error (nil as [None]). *)
Definition DeviceResult : Type := option Device * option string.

Definition scanToResult (r : ScanResult) : DeviceResult :=
  match r with
  | ErrNoRows => (None, None)
  | ScanErr e => (None, Some e)
  | RowFound d => (Some d, None)
  end.

Definition GetByID (r : DeviceRepo) (id : UUID) : DeviceResult :=
  scanToResult (QueryRowByID r id).

Definition GetByToken (r : DeviceRepo) (token : string) : DeviceResult :=
  scanToResult (QueryRowByToken r token).

(** A repository backed by a plain table: the first matching row wins. *)
Definition tableRepo (rows : list Device) : DeviceRepo :=
  {| QueryRowByID := fun id =>
       match List.find (fun d => N.eqb (devID d) id) rows with
       | Some d => RowFound d
       | None => ErrNoRows
       end;
     QueryRowByToken := fun tok =>
       match List.find (fun d => String.eqb (devDeviceToken d) tok) rows with
       | Some d => RowFound d
       | None => ErrNoRows
       end |}.

(** A repository whose every query fails (database unreachable). *)
Definition brokenRepo : DeviceRepo :=
  {| QueryRowByID := fun _ => ScanErr "connection refused";
     QueryRowByToken := fun _ => ScanErr "connection refused" |}.

(** ** Buffered channels of signaling messages *)

Record Chan := {
  buf : list SignalingMessage;
  closed : bool
}.

(** [make(chan SignalingMessage, 256)] for [Client.Send]. *)
Definition sendCap : nat := 256.

Definition makeChan : Chan := {| buf := []; closed := false |}.

(** Outcome of [select { case ch <- m: default: }]. *)
Inductive TrySend :=
| Sent (ch' : Chan)
| WouldBlock
| SendOnClosed.

(** The channel with [m] appended to its buffer. *)
Definition pushBack (m : SignalingMessage) (ch : Chan) : Chan :=
  {| buf := buf ch ++ [m]; closed := closed ch |}.

Definition trySend (m : SignalingMessage) (ch : Chan) : TrySend :=
  if closed ch then SendOnClosed
  else if decide (length (buf ch) < sendCap)
       then Sent (pushBack m ch)
       else WouldBlock.

(** [close(ch)]: [None] is the run-time panic on an already closed channel.
    The buffered messages stay readable by the consumer. *)
Definition closedChan (ch : Chan) : Chan := {| buf := buf ch; closed := true |}.

Definition closeChan (ch : Chan) : option Chan :=
  if closed ch then None else Some (closedChan ch).

(** ** Sessions, the hub and the observable trace *)

Abbreviation ptr := nat (only parsing).
Abbreviation ConnID := nat (only parsing).

Record Client := {
  ID : UUID;
  UserID : UUID;
  DeviceID : UUID;
  Conn : ConnID;
  Send : Chan;
  LastSeen : Z
}.

Definition withSend (c : Client) (ch : Chan) : Client :=
  {| ID := ID c; UserID := UserID c; DeviceID := DeviceID c;
     Conn := Conn c; Send := ch; LastSeen := LastSeen c |}.

Definition withLastSeen (c : Client) (t : Z) : Client :=
  {| ID := ID c; UserID := UserID c; DeviceID := DeviceID c;
     Conn := Conn c; Send := Send c; LastSeen := t |}.

Inductive Level := Info | Warn | Err.

Inductive Event :=
| Log (lvl : Level) (fields : list (string * string)) (msg : string)
| WriteJSON (conn : ConnID) (m : SignalingMessage)
| ConnClose (conn : ConnID)
| SetReadDeadline (conn : ConnID) (t : Z)
| UpdateLastSeen (id : UUID)
| GoWritePump (p : ptr)
| GoReadPump (p : ptr).

(** The hub, the heap of sessions it points into, and the trace.
    [broadcast], [register] and [unregister] hold the values sent on the
    hub's three channels and not yet received by [Hub.run], in arrival
    order (Go queues blocked senders first-in first-out, so a sender that
    waits on a full or unbuffered channel is a later element here). *)
Record World := {
  clients : gmap N nat;
  broadcast : list SignalingMessage;
  register : list nat;
  unregister : list nat;
  deviceRepo : DeviceRepo;
  heap : gmap nat Client;
  trace : list Event
}.

Definition setClients (f : gmap N nat -> gmap N nat) (w : World) : World :=
  {| clients := f (clients w); broadcast := broadcast w;
     register := register w; unregister := unregister w;
     deviceRepo := deviceRepo w; heap := heap w; trace := trace w |}.

Definition setHeap (f : gmap nat Client -> gmap nat Client) (w : World) : World :=
  {| clients := clients w; broadcast := broadcast w;
     register := register w; unregister := unregister w;
     deviceRepo := deviceRepo w; heap := f (heap w); trace := trace w |}.

Definition setBroadcast (f : list SignalingMessage -> list SignalingMessage)
    (w : World) : World :=
  {| clients := clients w; broadcast := f (broadcast w);
     register := register w; unregister := unregister w;
     deviceRepo := deviceRepo w; heap := heap w; trace := trace w |}.

Definition setRegister (f : list nat -> list nat) (w : World) : World :=
  {| clients := clients w; broadcast := broadcast w;
     register := f (register w); unregister := unregister w;
     deviceRepo := deviceRepo w; heap := heap w; trace := trace w |}.

Definition setUnregister (f : list nat -> list nat) (w : World) : World :=
  {| clients := clients w; broadcast := broadcast w;
     register := register w; unregister := f (unregister w);
     deviceRepo := deviceRepo w; heap := heap w; trace := trace w |}.

Definition setDeviceRepo (r : DeviceRepo) (w : World) : World :=
  {| clients := clients w; broadcast := broadcast w;
     register := register w; unregister := unregister w;
     deviceRepo := r; heap := heap w; trace := trace w |}.

Definition setTrace (f : list Event -> list Event) (w : World) : World :=
  {| clients := clients w; broadcast := broadcast w;
     register := register w; unregister := unregister w;
     deviceRepo := deviceRepo w; heap := heap w; trace := f (trace w) |}.

(** ** A state monad with run-time panics *)

Inductive Result (A : Type) :=
| Done (a : A) (w : World)
| Panic (e : string) (w : World).
Arguments Done {A} a w.
Arguments Panic {A} e w.

Definition M (A : Type) : Type := World -> Result A.

#[export] Instance M_ret : MRet M := fun A a w => Done a w.

#[export] Instance M_bind : MBind M := fun A B k m w =>
  match m w with
  | Done a w' => k a w'
  | Panic e w' => Panic e w'
  end.

Definition panic {A} (e : string) : M A := fun w => Panic e w.
Definition gets {A} (f : World -> A) : M A := fun w => Done (f w) w.
Definition modify (f : World -> World) : M unit := fun w => Done tt (f w).

Definition emit (e : Event) : M unit := modify (setTrace (fun t => t ++ [e])).

(** Reading a field through [c *Client]; an address that was never
    allocated is a nil dereference. *)
Definition deref (p : ptr) : M Client := fun w =>
  match heap w !! p with
  | Some c => Done c w
  | None => Panic "invalid memory address or nil pointer dereference" w
  end.

(** The object at [p] replaced by [c] (a field of [*p] assigned). *)
Definition store (p : ptr) (c : Client) : M unit :=
  modify (setHeap (insert p c)).

(** [close(c.Send)]. *)
Definition closeSend (p : ptr) : M unit :=
  c ← deref p;
  match closeChan (Send c) with
  | Some ch => store p (withSend c ch)
  | None => panic "close of closed channel"
  end.

(** The world a computation ends in, normally or by a panic. *)
Definition final {A} (r : Result A) : World :=
  match r with
  | Done _ w => w
  | Panic _ w => w
  end.

(** ** Errors of the transport's [ReadJSON]

    [gorilla/websocket] is not part of the repository. Its [ReadJSON]
    returns either the decoded message or an error: a [*CloseError]
    carrying the peer's close code, the JSON decoder's error for a frame
    that does not decode, or a network error. [IsUnexpectedCloseError]
    is true exactly for a [*CloseError] whose code is not among the
    expected ones. *)

Inductive error :=
| CloseError (code : Z)
| JSONError (text : string)
| NetError (text : string).

Definition errorText (e : error) : string :=
  match e with
  | CloseError _ => "websocket: close"
  | JSONError t => t
  | NetError t => t
  end.

Definition IsUnexpectedCloseError (err : error) (expectedCodes : list Z) : bool :=
  match err with
  | CloseError code => negb (existsb (Z.eqb code) expectedCodes)
  | _ => false
  end.

Definition CloseGoingAway : Z := 1001.
Definition CloseAbnormalClosure : Z := 1006.

(** [time.Second], in nanoseconds. *)
Definition Second : Z := 1000000000.

(** One return of [c.Conn.ReadJSON(&msg)], with the clock at that moment. *)
Record Read := {
  readAt : Z;
  readResult : SignalingMessage + error
}.

(** Where [readPump] stands after the reads it was given: still waiting in
    [ReadJSON], or returned (loop left, deferred calls done). *)
Inductive PumpState := Reading | Returned.

(** The HTTP request of [handleWebSocket]: the outcome of
    [upgrader.Upgrade] (the connection, or the error's text), the two
    query parameters as [Query().Get] returns them (empty when absent),
    and what [uuid.New()] and [time.Now()] return during the call. *)
Record Request := {
  upgrade : ConnID + string;
  device_id : string;
  device_token : string;
  newID : UUID;
  now : Z
}.

Inductive HubCase := caseRegister | caseUnregister | caseBroadcast.

(** ** An instance of the identifier functions

    The canonical text form of an identifier,
    [xxxxxxxx-xxxx-xxxx-xxxx-xxxxxxxxxxxx]: 32 hexadecimal digits, most
    significant first, with dashes after the 8th, 12th, 16th and 20th.
    Used to run the model on concrete inputs. *)

Definition hexValue (c : ascii) : option N :=
  let n := N_of_ascii c in
  if (48 <=? n)%N && (n <=? 57)%N then Some (n - 48)%N
  else if (97 <=? n)%N && (n <=? 102)%N then Some (n - 87)%N
  else if (65 <=? n)%N && (n <=? 70)%N then Some (n - 55)%N
  else None.

Definition isDashPos (i : nat) : bool :=
  (i =? 8)%nat || (i =? 13)%nat || (i =? 18)%nat || (i =? 23)%nat.

Fixpoint parseFrom (i : nat) (s : string) (acc : N) : option N :=
  match s with
  | EmptyString => if (i =? 36)%nat then Some acc else None
  | String ch rest =>
      if isDashPos i then
        if Ascii.eqb ch "-" then parseFrom (S i) rest acc else None
      else
        match hexValue ch with
        | Some v => parseFrom (S i) rest (acc * 16 + v)%N
        | None => None
        end
  end.

Definition canonicalParse (s : string) : option UUID := parseFrom 0 s 0%N.

Definition hexDigit (v : N) : ascii :=
  if (v <? 10)%N then ascii_of_N (48 + v) else ascii_of_N (87 + v).

Fixpoint hexDigits (n : nat) (v : N) (acc : string) : string :=
  match n with
  | O => acc
  | S n' => hexDigits n' (v / 16)%N (String (hexDigit (v mod 16)%N) acc)
  end.

Definition canonicalString (u : UUID) : string :=
  let h := hexDigits 32 u "" in
  String.append (String.substring 0 8 h)
    (String "-" (String.append (String.substring 8 4 h)
    (String "-" (String.append (String.substring 12 4 h)
    (String "-" (String.append (String.substring 16 4 h)
    (String "-" (String.substring 20 12 h)))))))).

Abbreviation cParse := canonicalParse (only parsing).
Abbreviation cString := canonicalString (only parsing).

(** ** Concrete devices, sessions and worlds

    Devices A and B belong to account 1, device C to account 2. *)

Definition mkDevice (id user : UUID) (token : string) : Device :=
  {| devID := id; devUserID := user; devName := token;
     devDeviceType := "desktop"; devDeviceToken := token;
     devLastSeenAt := 0; devCreatedAt := 0; devUpdatedAt := 0 |}.

Definition devA : Device := mkDevice 10 1 "token-a".
Definition devB : Device := mkDevice 11 1 "token-b".
Definition devC : Device := mkDevice 12 2 "token-c".

Definition repoABC : DeviceRepo := tableRepo [devA; devB; devC].

Definition mkClient (id user device : UUID) (conn : ConnID) (ch : Chan) : Client :=
  {| ID := id; UserID := user; DeviceID := device; Conn := conn;
     Send := ch; LastSeen := 0 |}.

(** Sessions at addresses 1, 2 and 3; [sessA'] (address 4) is a second
    connection of device A. *)
Definition sessA : Client := mkClient 100 1 10 1 makeChan.
Definition sessB : Client := mkClient 101 1 11 2 makeChan.
Definition sessC : Client := mkClient 102 2 12 3 makeChan.
Definition sessA' : Client := mkClient 103 1 10 4 makeChan.

(** A queue holding 256 pending messages. *)
Definition fullChan : Chan :=
  {| buf := replicate 256 (errorMessage "pending"); closed := false |}.

Definition mkWorld (reg : gmap N nat) (h : gmap nat Client) : World :=
  {| clients := reg; broadcast := []; register := []; unregister := [];
     deviceRepo := repoABC; heap := h; trace := [] |}.

(** A, B and C connected. *)
Definition worldABC : World :=
  mkWorld {[ 10%N := 1; 11%N := 2; 12%N := 3 ]}
          {[ 1 := sessA; 2 := sessB; 3 := sessC ]}.

(** As [worldABC], with 256 messages pending for C. *)
Definition worldCFull : World :=
  mkWorld {[ 10%N := 1; 11%N := 2; 12%N := 3 ]}
          {[ 1 := sessA; 2 := sessB; 3 := withSend sessC fullChan ]}.

(** Only A connected, with session [sessA]; [sessA'] is allocated and about
    to register for the same device. *)
Definition worldReconnect : World :=
  mkWorld {[ 10%N := 1 ]} {[ 1 := sessA; 4 := sessA' ]}.

Definition mkMsg (type from to : string) : SignalingMessage :=
  {| Type_ := type; FromDeviceID := from; ToDeviceID := to;
     SDP := Some {| sdpType := type; sdpSDP := "v=0" |};
     Candidate := Some {| iceCandidate := "candidate:1"; iceSDPMLineIndex := 0;
                          iceSDPMid := "0" |};
     Error := ""; Data := "" |}.

Definition idA : string := "00000000-0000-0000-0000-00000000000a".
Definition idB : string := "00000000-0000-0000-0000-00000000000b".
Definition idC : string := "00000000-0000-0000-0000-00000000000c".

(** The envelope with its claimed sender replaced. *)
Definition withFrom (msg : SignalingMessage) (from : string) : SignalingMessage :=
  {| Type_ := Type_ msg; FromDeviceID := from; ToDeviceID := ToDeviceID msg;
     SDP := SDP msg; Candidate := Candidate msg; Error := Error msg;
     Data := Data msg |}.

(** Device A has reconnected: the registry points at [sessA'] while the
    first session [sessA] is still allocated and running. *)
Definition worldReplaced : World :=
  mkWorld {[ 10%N := 4 ]} {[ 1 := sessA; 4 := sessA' ]}.

(** As [worldReplaced], after [sessA] was evicted for a full queue (its
    queue is closed) and before its read loop has ended. *)
Definition worldEvicted : World :=
  mkWorld {[ 10%N := 4 ]}
          {[ 1 := withSend sessA (closedChan fullChan); 4 := sessA' ]}.

(** Nobody registered yet; [sessA] then [sessA'] are waiting on the
    register channel. *)
Definition worldConnecting : World :=
  setRegister (λ _, [1; 4]) (mkWorld ∅ {[ 1 := sessA; 4 := sessA' ]}).

Definition offerToB : SignalingMessage := mkMsg "offer" "" idB.
Definition answerToB : SignalingMessage := mkMsg "answer" "" idB.
Definition answerToC : SignalingMessage := mkMsg "answer" "" idC.
Definition answerNoTarget : SignalingMessage := mkMsg "answer" "" "".
Definition answerMalformedTarget : SignalingMessage := mkMsg "answer" "" "not-a-uuid".

(** A first session of A whose queue is full, a message for A in flight, a
    second connection of A about to register, and the first session's
    read loop about to end. *)
Definition worldRace : World :=
  {| clients := ∅; broadcast := [mkMsg "answer" idB idA];
     register := [1; 4]; unregister := [1];
     deviceRepo := repoABC;
     heap := {[ 1 := withSend sessA fullChan; 4 := sessA' ]};
     trace := [] |}.


Definition frame (t : Z) (msg : SignalingMessage) : Read :=
  {| readAt := t; readResult := inl msg |}.

Definition mkRequest (id token : string) : Request :=
  {| upgrade := inl 9; device_id := id; device_token := token;
     newID := 104; now := 0 |}.

(** ** Predicates used to state the properties *)

(** An error envelope was appended to the outbound queue of session [c]
    between [w] and [w']. *)
Definition errorEnqueued (c : ptr) (w w' : World) : Prop :=
  ∃ cl cl' e, heap w !! c = Some cl ∧ heap w' !! c = Some cl' ∧
    buf (Send cl') = buf (Send cl) ++ [errorMessage e].

(** Session [p] has been retired: its outbound queue is closed and its
    transport was closed. *)
Definition retired (p : ptr) (w : World) : Prop :=
  ∃ c, heap w !! p = Some c ∧ closed (Send c) = true ∧
    ConnClose (Conn c) ∈ trace w.

(** Every registered session is allocated, is registered under its own
    device identifier, and its outbound queue is open. *)
Definition registeredOpen (w : World) : Prop :=
  ∀ d p, clients w !! d = Some p →
    ∃ c, heap w !! p = Some c ∧ DeviceID c = d ∧ closed (Send c) = false.

Section Relay.

(** [uuid.Parse] ([None] when it returns an error) and [UUID.String]. *)
Variable uuid_Parse : string -> option UUID.
Variable uuid_String : UUID -> string.

(** *** Hub.run: the three cases of its [select] *)

Definition Hub_run_register (client : ptr) : M unit :=
  c ← deref client;
  modify (setClients (insert (DeviceID c) client));;
  emit (Log Info [("device_id", uuid_String (DeviceID c))] "Client registered").

Definition Hub_run_unregister (client : ptr) : M unit :=
  c ← deref client;
  reg ← gets clients;
  match reg !! DeviceID c with
  | Some _ =>
      modify (setClients (delete (DeviceID c)));;
      closeSend client
  | None => mret tt
  end;;
  emit (Log Info [("device_id", uuid_String (DeviceID c))] "Client unregistered").

Definition Hub_run_broadcast (message : SignalingMessage) : M unit :=
  match uuid_Parse (ToDeviceID message) with
  | Some toDeviceID =>
      reg ← gets clients;
      match reg !! toDeviceID with
      | Some client =>
          c ← deref client;
          match trySend message (Send c) with
          | Sent ch => store client (withSend c ch)
          | WouldBlock =>
              closeSend client;;
              modify (setClients (delete toDeviceID))
          | SendOnClosed => panic "send on closed channel"
          end
      | None =>
          emit (Log Warn [("device_id", ToDeviceID message)]
                  "Target device not connected")
      end
  | None => mret tt
  end.

(** One iteration of the [for { select { ... } }] loop, the ready case
    being [sel]; a case whose channel has nothing pending is not ready and
    the iteration leaves the world as it is. *)
Definition Hub_run_iter (sel : HubCase) : M unit :=
  match sel with
  | caseRegister =>
      q ← gets register;
      match q with
      | client :: rest =>
          modify (setRegister (fun _ => rest));; Hub_run_register client
      | [] => mret tt
      end
  | caseUnregister =>
      q ← gets unregister;
      match q with
      | client :: rest =>
          modify (setUnregister (fun _ => rest));; Hub_run_unregister client
      | [] => mret tt
      end
  | caseBroadcast =>
      q ← gets broadcast;
      match q with
      | message :: rest =>
          modify (setBroadcast (fun _ => rest));; Hub_run_broadcast message
      | [] => mret tt
      end
  end.

Fixpoint Hub_run (sels : list HubCase) : M unit :=
  match sels with
  | [] => mret tt
  | sel :: rest => Hub_run_iter sel;; Hub_run rest
  end.

(** *** Client: the inbound side of a session *)

Definition sendError (c : ptr) (errorMsg : string) : M unit :=
  cl ← deref c;
  match trySend (errorMessage errorMsg) (Send cl) with
  | Sent ch => store c (withSend cl ch)
  | WouldBlock => emit (Log Warn [] "Failed to send error message")
  | SendOnClosed => panic "send on closed channel"
  end.

(** [c.Hub.broadcast <- m]. *)
Definition toBroadcast (m : SignalingMessage) : M unit :=
  modify (setBroadcast (fun q => q ++ [m])).

Definition handleOffer (c : ptr) (msg : SignalingMessage) : M unit :=
  if decide (ToDeviceID msg = "") then
    sendError c "to_device_id is required for offer"
  else
    match uuid_Parse (ToDeviceID msg) with
    | None => sendError c "invalid to_device_id"
    | Some toDeviceID =>
        repo ← gets deviceRepo;
        match GetByID repo toDeviceID with
        | (Some toDevice, None) =>
            cl ← deref c;
            if decide (devUserID toDevice ≠ UserID cl) then
              sendError c "devices must belong to the same user"
            else
              toBroadcast
                {| Type_ := "offer";
                   FromDeviceID := uuid_String (DeviceID cl);
                   ToDeviceID := ToDeviceID msg;
                   SDP := SDP msg;
                   Candidate := None; Error := ""; Data := "" |}
        | _ => sendError c "target device not found"
        end
    end.

Definition handleAnswer (c : ptr) (msg : SignalingMessage) : M unit :=
  if decide (ToDeviceID msg = "") then
    sendError c "to_device_id is required for answer"
  else
    cl ← deref c;
    toBroadcast
      {| Type_ := "answer";
         FromDeviceID := uuid_String (DeviceID cl);
         ToDeviceID := ToDeviceID msg;
         SDP := SDP msg;
         Candidate := None; Error := ""; Data := "" |}.

Definition handleICECandidate (c : ptr) (msg : SignalingMessage) : M unit :=
  if decide (ToDeviceID msg = "") then
    sendError c "to_device_id is required for ice-candidate"
  else
    cl ← deref c;
    toBroadcast
      {| Type_ := "ice-candidate";
         FromDeviceID := uuid_String (DeviceID cl);
         ToDeviceID := ToDeviceID msg;
         SDP := None;
         Candidate := Candidate msg; Error := ""; Data := "" |}.

Definition handleMessage (c : ptr) (msg : SignalingMessage) : M unit :=
  if decide (Type_ msg = "offer") then handleOffer c msg
  else if decide (Type_ msg = "answer") then handleAnswer c msg
  else if decide (Type_ msg = "ice-candidate") then handleICECandidate c msg
  else emit (Log Warn [("type", Type_ msg)] "Unknown message type").

(** The [for] loop of [readPump] over the successive returns of
    [ReadJSON]; [Returned] once the loop is left by [break], [Reading]
    when it is waiting for a frame beyond [reads]. *)
Fixpoint readLoop (c : ptr) (reads : list Read) : M PumpState :=
  match reads with
  | [] => mret Reading
  | r :: rest =>
      match readResult r with
      | inr err =>
          (if IsUnexpectedCloseError err [CloseGoingAway; CloseAbnormalClosure]
           then emit (Log Err [("error", errorText err)] "WebSocket error")
           else mret tt);;
          mret Returned
      | inl msg =>
          cl ← deref c;
          store c (withLastSeen cl (readAt r));;
          handleMessage c msg;;
          readLoop c rest
      end
  end.

(** The deferred function of [readPump]: [c.Hub.unregister <- c], then
    [c.Conn.Close()]. *)
Definition readPump_deferred (c : ptr) (cl : Client) : M unit :=
  modify (setUnregister (fun q => q ++ [c]));;
  emit (ConnClose (Conn cl)).

(** A panic [e] unwinding through a function whose deferred calls are
    [deferred]: they run, and the panic goes on to the caller. *)
Definition unwind {A} (deferred : M unit) (e : string) : M A := fun w =>
  match deferred w with
  | Done _ w' => Panic e w'
  | Panic e' w' => Panic e' w'
  end.

(** [readPump], started at time [start]. The pong handler only moves the
    read deadline and is left out. The deferred function runs when the
    loop is left by [break] and also when a panic of [handleMessage]
    unwinds the function; it has not run while the loop is still waiting
    in [ReadJSON]. *)
Definition readPump (c : ptr) (start : Z) (reads : list Read) : M PumpState :=
  cl ← deref c;
  emit (SetReadDeadline (Conn cl) (start + 60 * Second));;
  ((fun w =>
      match readLoop c reads w with
      | Done Returned w' => (readPump_deferred c cl;; mret Returned) w'
      | Done Reading w' => Done Reading w'
      | Panic e w' => unwind (readPump_deferred c cl) e w'
      end) : M PumpState).

(** *** The handshake *)

Definition reject (conn : ConnID) (e : string) : M unit :=
  emit (WriteJSON conn (errorMessage e));;
  emit (ConnClose conn).

Definition handleWebSocket (r : Request) : M unit :=
  match upgrade r with
  | inr err => emit (Log Err [("error", err)] "Failed to upgrade connection")
  | inl conn =>
      if decide (device_id r = "" ∨ device_token r = "") then
        reject conn "device_id and device_token are required"
      else
        match uuid_Parse (device_id r) with
        | None => reject conn "invalid device_id"
        | Some deviceID =>
            repo ← gets deviceRepo;
            match GetByToken repo (device_token r) with
            | (Some device, None) =>
                if decide (devID device ≠ deviceID) then
                  reject conn "device_id does not match device_token"
                else
                  emit (UpdateLastSeen deviceID);;
                  h ← gets heap;
                  let client := fresh (dom h) in
                  modify (setHeap (insert client
                    {| ID := newID r; UserID := devUserID device;
                       DeviceID := deviceID; Conn := conn;
                       Send := makeChan; LastSeen := now r |}));;
                  modify (setRegister (fun q => q ++ [client]));;
                  emit (GoWritePump client);;
                  emit (GoReadPump client)
            | _ => reject conn "invalid device_token"
            end
        end
  end.


(** *** Client.writePump

    The write side has operations the world's trace has no entry for
    (write deadlines, control frames, the ticker), so the pump returns the
    sequence of its operations, in program order; [Ev] wraps the ones that
    are trace events. Its only effect on the world is to take messages out
    of the session's outbound queue. *)

Definition CloseMessage : Z := 8.
Definition PingMessage : Z := 9.

Inductive WireOp :=
| Ev (e : Event)
| SetWriteDeadline (conn : ConnID) (t : Z)
| WriteMessage (conn : ConnID) (messageType : Z)
| TickerStop.

(** One iteration of the pump's [select]: the case that fires, the clock
    at that moment, and the error of the write it performs, if any. *)
Inductive WriteStep :=
| FromSend (at_ : Z) (writeErr : option string)
| FromTicker (at_ : Z) (writeErr : option string).

(** [message, ok := <-ch]: the oldest buffered message; on an empty buffer
    [ok = false] when the channel is closed, and nothing to receive yet
    when it is open. *)
Inductive Recv :=
| Got (message : SignalingMessage) (ch' : Chan)
| ClosedEmpty
| NotReady.

Definition recv (ch : Chan) : Recv :=
  match buf ch with
  | message :: rest => Got message {| buf := rest; closed := closed ch |}
  | [] => if closed ch then ClosedEmpty else NotReady
  end.

Inductive WriteState := Writing | Stopped.

(** The [for { select { ... } }] loop of [writePump]. A [FromSend] step on
    an open, empty queue is a case that is not ready: nothing happens. *)
Fixpoint writeLoop (c : ptr) (steps : list WriteStep)
    : M (WriteState * list WireOp) :=
  match steps with
  | [] => mret (Writing, [])
  | FromSend t writeErr :: rest =>
      cl ← deref c;
      match recv (Send cl) with
      | NotReady => writeLoop c rest
      | ClosedEmpty =>
          mret (Stopped, [SetWriteDeadline (Conn cl) (t + 10 * Second);
                          WriteMessage (Conn cl) CloseMessage])
      | Got message ch =>
          store c (withSend cl ch);;
          match writeErr with
          | Some err =>
              mret (Stopped, [SetWriteDeadline (Conn cl) (t + 10 * Second);
                              Ev (WriteJSON (Conn cl) message);
                              Ev (Log Err [("error", err)] "Failed to write message")])
          | None =>
              r ← writeLoop c rest;
              mret (r.1, [SetWriteDeadline (Conn cl) (t + 10 * Second);
                          Ev (WriteJSON (Conn cl) message)] ++ r.2)
          end
      end
  | FromTicker t writeErr :: rest =>
      cl ← deref c;
      match writeErr with
      | Some _ =>
          mret (Stopped, [SetWriteDeadline (Conn cl) (t + 10 * Second);
                          WriteMessage (Conn cl) PingMessage])
      | None =>
          r ← writeLoop c rest;
          mret (r.1, [SetWriteDeadline (Conn cl) (t + 10 * Second);
                      WriteMessage (Conn cl) PingMessage] ++ r.2)
      end
  end.

(** [writePump]: the loop, then the deferred [ticker.Stop()] and
    [c.Conn.Close()] once the loop has been left. *)
Definition writePump (c : ptr) (steps : list WriteStep)
    : M (WriteState * list WireOp) :=
  cl ← deref c;
  r ← writeLoop c steps;
  match r.1 with
  | Stopped => mret (Stopped, r.2 ++ [TickerStop; Ev (ConnClose (Conn cl))])
  | Writing => mret r
  end.

(** The messages handed to [WriteJSON], in order. *)
Definition written (ops : list WireOp) : list SignalingMessage :=
  omap (λ op, match op with Ev (WriteJSON _ m) => Some m | _ => None end) ops.

(** *** Server.Shutdown and NewServer *)

Fixpoint closeConns (ps : list ptr) : M unit :=
  match ps with
  | [] => mret tt
  | client :: rest =>
      cl ← deref client;
      emit (ConnClose (Conn cl));;
      closeConns rest
  end.

(** [Shutdown] ranges over [hub.clients]; Go leaves the order of a map
    range unspecified, the model takes the one of [map_to_list]. *)
Definition Shutdown : M unit :=
  reg ← gets clients;
  closeConns ((map_to_list reg).*2).

(** The world [NewServer] sets up: an empty registry, empty channels and
    the hub's loop started. *)
Definition NewServer (deviceRepo : DeviceRepo) : World :=
  {| clients := ∅; broadcast := []; register := []; unregister := [];
     deviceRepo := deviceRepo; heap := ∅; trace := [] |}.

(** *** The system as a whole *)

(** What one goroutine does in one go: a handshake, one iteration of the
    hub, a session's read pump over some reads, its write pump over some
    steps, or the shutdown. A read pump runs only for a session the hub has
    received on the register channel ([handleWebSocket] starts the pumps
    after its send on that unbuffered channel has completed). *)
Inductive step (w : World) : World → Prop :=
| step_connect r : step w (final (handleWebSocket r w))
| step_hub sel : step w (final (Hub_run_iter sel w))
| step_read c start reads :
    c ∉ register w → step w (final (readPump c start reads w))
| step_write c steps : step w (final (writePump c steps w))
| step_shutdown : step w (final (Shutdown w)).

Inductive reachable (repo : DeviceRepo) : World → Prop :=
| reach_start : reachable repo (NewServer repo)
| reach_step w w' : reachable repo w → step w w' → reachable repo w'.

(** Two heaps hold the same sessions: the same addresses, each with the
    same device and the same open-or-closed state of its queue, and no
    queue within capacity has grown beyond it. *)
Definition sameSessions (h h' : gmap nat Client) : Prop :=
  ∀ p, match h !! p, h' !! p with
       | Some a, Some b =>
           DeviceID a = DeviceID b ∧ UserID a = UserID b ∧
           closed (Send a) = closed (Send b) ∧
           ((length (buf (Send a)) ≤ sendCap)%nat → (length (buf (Send b)) ≤ sendCap)%nat)
       | None, None => True
       | _, _ => False
       end.

(** A step that is local to sessions: it leaves the registry and the
    register and unregister channels alone and keeps the sessions. *)
Definition sessionLocal (w w' : World) : Prop :=
  clients w' = clients w ∧ register w' = register w ∧
  sameSessions (heap w) (heap w').

(** A step that is local to sessions and asks for no deregistration. *)
Definition quiet (w w' : World) : Prop :=
  sessionLocal w w' ∧ unregister w' = unregister w.

(** The invariant of the system. *)
Definition wellFormed (w : World) : Prop :=
  registeredOpen w ∧
  NoDup (register w) ∧
  (∀ p, p ∈ register w →
     (∃ c, heap w !! p = Some c ∧ closed (Send c) = false) ∧
     (p ∉ unregister w) ∧ (∀ d, clients w !! d ≠ Some p)) ∧
  (∀ p, p ∈ unregister w → is_Some (heap w !! p)) ∧
  (∀ p c, heap w !! p = Some c → (length (buf (Send c)) ≤ sendCap)%nat).

Definition isLog (e : Event) : Prop :=
  match e with
  | Log _ _ _ => True
  | _ => False
  end.

(** The envelope a session with device [device] makes of an inbound
    message of one of the three forwarded kinds. *)
Definition envelopeOf (device : UUID) (msg : SignalingMessage) : SignalingMessage :=
  {| Type_ := Type_ msg;
     FromDeviceID := uuid_String device;
     ToDeviceID := ToDeviceID msg;
     SDP := if decide (Type_ msg = "ice-candidate") then None else SDP msg;
     Candidate := if decide (Type_ msg = "ice-candidate") then Candidate msg else None;
     Error := ""; Data := "" |}.

(** What handling inbound frames of session [c] may change between [w]
    and [w']: the hub's broadcast channel may gain envelopes, the trace
    may gain log lines, and session [c] may gain error envelopes at the
    end of its queue (and a new last-seen time). *)
Definition inboundEffect (c : ptr) (w w' : World) : Prop :=
  clients w' = clients w ∧ register w' = register w ∧
  unregister w' = unregister w ∧ deviceRepo w' = deviceRepo w ∧
  (∀ q, q ≠ c → heap w' !! q = heap w !! q) ∧
  (∃ logs, trace w' = trace w ++ logs ∧ Forall isLog logs) ∧
  (∃ sub, broadcast w' = broadcast w ++ sub) ∧
  match heap w !! c, heap w' !! c with
  | Some a, Some b =>
      ID a = ID b ∧ UserID a = UserID b ∧ DeviceID a = DeviceID b ∧
      Conn a = Conn b ∧ closed (Send a) = closed (Send b) ∧
      ∃ errs, buf (Send b) = buf (Send a) ++ errs ∧
        Forall (λ m, Type_ m = "error") errs
  | None, None => True
  | _, _ => False
  end.

(** The outcome [r] with its world changed by [f]. *)
Definition mapWorld {A} (f : World → World) (r : Result A) : Result A :=
  match r with
  | Done a w => Done a (f w)
  | Panic e w => Panic e (f w)
  end.

(** ** The device model, the repository's writes and the device service

    [models.Device.Validate], the writing methods of [DeviceRepo] and the
    gRPC [DeviceService] built on them. The database is a state machine
    of an arbitrary state type: [reads] gives the single-row selects in a
    state, [exec] runs one statement and gives what [db.Exec] and
    [RowsAffected] report together with the next state. *)

Definition DeviceTypeDesktop : string := "desktop".
Definition DeviceTypeMobile : string := "mobile".

(** [Validate]: [None] is the nil error. *)
Definition Device_Validate (d : Device) : option string :=
  if decide (devName d = "") then Some "device name is required"
  else if decide (devDeviceType d ≠ DeviceTypeDesktop ∧
                  devDeviceType d ≠ DeviceTypeMobile)
       then Some "invalid device type"
  else if decide (devDeviceToken d = "") then Some "device token is required"
  else None.

(** The statements [DeviceRepo] executes, with their arguments. *)
Inductive Stmt :=
| InsertDevice (d : Device)
| UpdateDeviceRow (name type token : string) (lastSeenAt updatedAt : Z) (id : UUID)
| TouchLastSeen (lastSeenAt updatedAt : Z) (id : UUID)
| DeleteDeviceRow (id : UUID).

(** What [db.Exec] followed by [res.RowsAffected()] reports. *)
Inductive ExecResult :=
| Affected (n : Z)
| ExecFails (e : string)
| RowsAffectedFails (e : string).

Record Database (S : Type) := {
  reads : S → DeviceRepo;
  exec : Stmt → S → ExecResult * S
}.
#[global] Arguments reads {S} _ _.
#[global] Arguments exec {S} _ _ _.

(** The text of [sql.ErrNoRows]. *)
Definition ErrNoRowsText : string := "sql: no rows in result set".

(** The common tail of [Update], [UpdateLastSeen] and [Delete]. *)
Definition execError (r : ExecResult) : option string :=
  match r with
  | ExecFails e => Some e
  | RowsAffectedFails e => Some e
  | Affected n => if decide (n = 0%Z) then Some ErrNoRowsText else None
  end.

(** [Create] sets the identifier and the three timestamps of the device it
    is given, then inserts it; only the error of [Exec] is looked at. The
    device as left by the call is returned with the error. *)
Definition DeviceRepo_Create {S} (db : Database S) (newID : UUID) (now : Z)
    (device : Device) (s : S) : (Device * option string) * S :=
  let device' :=
    {| devID := newID; devUserID := devUserID device; devName := devName device;
       devDeviceType := devDeviceType device;
       devDeviceToken := devDeviceToken device;
       devLastSeenAt := now; devCreatedAt := now; devUpdatedAt := now |} in
  let '(r, s') := exec db (InsertDevice device') s in
  ((device', match r with ExecFails e => Some e | _ => None end), s').

Definition DeviceRepo_Update {S} (db : Database S) (now : Z)
    (device : Device) (s : S) : (Device * option string) * S :=
  let device' :=
    {| devID := devID device; devUserID := devUserID device;
       devName := devName device; devDeviceType := devDeviceType device;
       devDeviceToken := devDeviceToken device;
       devLastSeenAt := devLastSeenAt device;
       devCreatedAt := devCreatedAt device; devUpdatedAt := now |} in
  let '(r, s') :=
    exec db (UpdateDeviceRow (devName device') (devDeviceType device')
               (devDeviceToken device') (devLastSeenAt device')
               (devUpdatedAt device') (devID device')) s in
  ((device', execError r), s').

Definition DeviceRepo_UpdateLastSeen {S} (db : Database S) (now : Z)
    (id : UUID) (s : S) : option string * S :=
  let '(r, s') := exec db (TouchLastSeen now now id) s in
  (execError r, s').

Definition DeviceRepo_Delete {S} (db : Database S) (id : UUID) (s : S)
    : option string * S :=
  let '(r, s') := exec db (DeleteDeviceRow id) s in
  (execError r, s').

(** gRPC status codes the service answers with, and a status. *)
Inductive Code := InvalidArgument | NotFound | PermissionDenied | Internal.

Record Status := { statusCode : Code; statusMessage : string }.

(** [devicepb.Device]. *)
Record PBDevice := {
  pbId : string; pbUserId : string; pbName : string;
  pbDeviceType : string; pbDeviceToken : string;
  pbLastSeenAt : string; pbCreatedAt : string; pbUpdatedAt : string
}.

Record RegisterDeviceRequest := {
  rdUserId : string; rdName : string; rdDeviceType : string
}.

Record RegisterDeviceResponse := {
  rdDevice : PBDevice; rdDeviceToken : string
}.

Record GetDeviceRequest := { gdDeviceId : string; gdUserId : string }.

Record UpdateDeviceRequest := {
  udDeviceId : string; udUserId : string; udName : string;
  udDeviceType : string
}.

Record DeleteDeviceRequest := { ddDeviceId : string; ddUserId : string }.

Record UpdateLastSeenRequest := { ulDeviceId : string }.

(** An in-memory table as a database, to run the service on examples:
    an insert appends the row, an update or a deletion applies to the rows
    of the given identifier and reports how many there were. *)
Definition tableExec (st : Stmt) (rows : list Device) : ExecResult * list Device :=
  let hits id := Z.of_nat (length (filter (λ d, devID d = id) rows)) in
  match st with
  | InsertDevice d => (Affected 1, rows ++ [d])
  | UpdateDeviceRow name type token lastSeenAt updatedAt id =>
      (Affected (hits id),
       map (λ d, if decide (devID d = id)
                 then {| devID := devID d; devUserID := devUserID d;
                         devName := name; devDeviceType := type;
                         devDeviceToken := token; devLastSeenAt := lastSeenAt;
                         devCreatedAt := devCreatedAt d;
                         devUpdatedAt := updatedAt |}
                 else d) rows)
  | TouchLastSeen lastSeenAt updatedAt id =>
      (Affected (hits id),
       map (λ d, if decide (devID d = id)
                 then {| devID := devID d; devUserID := devUserID d;
                         devName := devName d; devDeviceType := devDeviceType d;
                         devDeviceToken := devDeviceToken d;
                         devLastSeenAt := lastSeenAt;
                         devCreatedAt := devCreatedAt d;
                         devUpdatedAt := updatedAt |}
                 else d) rows)
  | DeleteDeviceRow id => (Affected (hits id), filter (λ d, devID d ≠ id) rows)
  end.

Definition tableDB : Database (list Device) :=
  {| reads := tableRepo; exec := tableExec |}.

Definition formatUnix (t : Z) : string :=
  if decide (t = 0%Z) then "1970-01-01T00:00:00Z" else "2026-01-01T00:00:00Z".

(** Further example inputs. *)
Definition worldTwoForB : World :=
  setBroadcast (λ _, [offerToB; answerToB]) worldABC.

Definition idUser1 : string := "00000000-0000-0000-0000-000000000001".
Definition idUser2 : string := "00000000-0000-0000-0000-000000000002".

(** What [db.Query] and the iteration over its rows give [GetByUserID]:
    the query's own error, or the rows fetched, each of which scans into a
    device or fails to, and the error [rows.Err()] reports at the end. *)
Inductive QueryResult :=
| QueryFails (e : string)
| Rows (rows : list (Device + string)) (rowsErr : option string).

(** The [for rows.Next()] loop: the devices scanned so far, until a scan
    fails. *)
Fixpoint scanRows (rows : list (Device + string)) (devices : list Device)
    : list Device + string :=
  match rows with
  | [] => inl devices
  | inr err :: _ => inr err
  | inl device :: rest => scanRows rest (devices ++ [device])
  end.

Definition DeviceRepo_GetByUserID (q : QueryResult)
    : option (list Device) * option string :=
  match q with
  | QueryFails e => (None, Some e)
  | Rows rows rowsErr =>
      match scanRows rows [] with
      | inr e => (None, Some e)
      | inl devices =>
          match rowsErr with
          | Some e => (None, Some e)
          | None => (Some devices, None)
          end
      end
  end.

Record ListDevicesRequest := { ldUserId : string }.

(** *** DeviceService

    [format] stands for [time.Time.Format(time.RFC3339)]. *)

Definition toPB (format : Z → string) (d : Device) : PBDevice :=
  {| pbId := uuid_String (devID d); pbUserId := uuid_String (devUserID d);
     pbName := devName d; pbDeviceType := devDeviceType d;
     pbDeviceToken := devDeviceToken d;
     pbLastSeenAt := format (devLastSeenAt d);
     pbCreatedAt := format (devCreatedAt d);
     pbUpdatedAt := format (devUpdatedAt d) |}.

Definition statusError (c : Code) (m : string) : Status :=
  {| statusCode := c; statusMessage := m |}.

(** [newToken] and [newID] are what the two calls of [uuid.New()] return,
    [now] what [time.Now()] returns in [Create]. *)
Definition DeviceService_RegisterDevice {S} (db : Database S)
    (format : Z → string) (newToken newID : UUID) (now : Z)
    (req : RegisterDeviceRequest) (s : S)
    : (RegisterDeviceResponse + Status) * S :=
  match uuid_Parse (rdUserId req) with
  | None => (inr (statusError InvalidArgument "invalid user_id"), s)
  | Some userID =>
      let deviceType := rdDeviceType req in
      if decide (deviceType ≠ DeviceTypeDesktop ∧ deviceType ≠ DeviceTypeMobile)
      then (inr (statusError InvalidArgument "invalid device_type"), s)
      else
        let device :=
          {| devID := 0%N; devUserID := userID; devName := rdName req;
             devDeviceType := deviceType;
             devDeviceToken := uuid_String newToken;
             devLastSeenAt := 0; devCreatedAt := 0; devUpdatedAt := 0 |} in
        match Device_Validate device with
        | Some e => (inr (statusError InvalidArgument e), s)
        | None =>
            let '((device', err), s') := DeviceRepo_Create db newID now device s in
            match err with
            | Some _ => (inr (statusError Internal "failed to create device"), s')
            | None =>
                (inl {| rdDevice := toPB format device';
                        rdDeviceToken := devDeviceToken device' |}, s')
            end
        end
  end.

Definition DeviceService_GetDevice (repo : DeviceRepo) (format : Z → string)
    (req : GetDeviceRequest) : PBDevice + Status :=
  match uuid_Parse (gdDeviceId req) with
  | None => inr (statusError InvalidArgument "invalid device_id")
  | Some deviceID =>
      match GetByID repo deviceID with
      | (_, Some _) => inr (statusError Internal "failed to get device")
      | (None, None) => inr (statusError NotFound "device not found")
      | (Some device, None) =>
          match uuid_Parse (gdUserId req) with
          | Some userID =>
              if decide (devUserID device ≠ userID)
              then inr (statusError PermissionDenied "device belongs to another user")
              else inl (toPB format device)
          | None => inl (toPB format device)
          end
      end
  end.

Definition DeviceService_UpdateDevice {S} (db : Database S)
    (format : Z → string) (now : Z) (req : UpdateDeviceRequest) (s : S)
    : (PBDevice + Status) * S :=
  match uuid_Parse (udDeviceId req) with
  | None => (inr (statusError InvalidArgument "invalid device_id"), s)
  | Some deviceID =>
      match uuid_Parse (udUserId req) with
      | None => (inr (statusError InvalidArgument "invalid user_id"), s)
      | Some userID =>
          match GetByID (reads db s) deviceID with
          | (_, Some _) => (inr (statusError Internal "failed to get device"), s)
          | (None, None) => (inr (statusError NotFound "device not found"), s)
          | (Some device, None) =>
              if decide (devUserID device ≠ userID)
              then (inr (statusError PermissionDenied
                           "device belongs to another user"), s)
              else
                let device1 :=
                  {| devID := devID device; devUserID := devUserID device;
                     devName := udName req;
                     devDeviceType :=
                       if decide (udDeviceType req ≠ "") then udDeviceType req
                       else devDeviceType device;
                     devDeviceToken := devDeviceToken device;
                     devLastSeenAt := devLastSeenAt device;
                     devCreatedAt := devCreatedAt device;
                     devUpdatedAt := devUpdatedAt device |} in
                match Device_Validate device1 with
                | Some e => (inr (statusError InvalidArgument e), s)
                | None =>
                    let '((device2, err), s') := DeviceRepo_Update db now device1 s in
                    match err with
                    | Some _ =>
                        (inr (statusError Internal "failed to update device"), s')
                    | None => (inl (toPB format device2), s')
                    end
                end
          end
      end
  end.

(** The response of [DeleteDevice] and of [UpdateLastSeen] is
    [Success: true]; it is [tt] here. *)
Definition DeviceService_DeleteDevice {S} (db : Database S)
    (req : DeleteDeviceRequest) (s : S) : (unit + Status) * S :=
  match uuid_Parse (ddDeviceId req) with
  | None => (inr (statusError InvalidArgument "invalid device_id"), s)
  | Some deviceID =>
      match uuid_Parse (ddUserId req) with
      | None => (inr (statusError InvalidArgument "invalid user_id"), s)
      | Some userID =>
          match GetByID (reads db s) deviceID with
          | (_, Some _) => (inr (statusError Internal "failed to get device"), s)
          | (None, None) => (inr (statusError NotFound "device not found"), s)
          | (Some device, None) =>
              if decide (devUserID device ≠ userID)
              then (inr (statusError PermissionDenied
                           "device belongs to another user"), s)
              else
                let '(err, s') := DeviceRepo_Delete db deviceID s in
                match err with
                | Some _ =>
                    (inr (statusError Internal "failed to delete device"), s')
                | None => (inl tt, s')
                end
          end
      end
  end.

Definition DeviceService_UpdateLastSeen {S} (db : Database S) (now : Z)
    (req : UpdateLastSeenRequest) (s : S) : (unit + Status) * S :=
  match uuid_Parse (ulDeviceId req) with
  | None => (inr (statusError InvalidArgument "invalid device_id"), s)
  | Some deviceID =>
      let '(err, s') := DeviceRepo_UpdateLastSeen db now deviceID s in
      match err with
      | Some _ => (inr (statusError Internal "failed to update last seen"), s')
      | None => (inl tt, s')
      end
  end.

(** [query] is what the select by owner gives for a user identifier. *)
Definition DeviceService_ListDevices (query : UUID → QueryResult)
    (format : Z → string) (req : ListDevicesRequest)
    : list PBDevice + Status :=
  match uuid_Parse (ldUserId req) with
  | None => inr (statusError InvalidArgument "invalid user_id")
  | Some userID =>
      match DeviceRepo_GetByUserID (query userID) with
      | (_, Some _) => inr (statusError Internal "failed to list devices")
      | (None, None) => inl []
      | (Some devices, None) => inl (map (toPB format) devices)
      end
  end.
(** * Properties *)

(** The canonical text form, as used in the examples. *)

Example canonicalString_10 : canonicalString 10 = idA.
Proof. reflexivity. Qed.

Example canonicalParse_idB : canonicalParse idB = Some 11%N.
Proof. reflexivity. Qed.

Example canonicalParse_garbage : canonicalParse "not-a-uuid" = None.
Proof. reflexivity. Qed.

(** ** Channels *)

Lemma trySend_room m ch :
  closed ch = false → length (buf ch) < sendCap →
  trySend m ch = Sent (pushBack m ch).
Proof.
  intros Hopen Hlen. unfold trySend. rewrite Hopen.
  case_decide; [reflexivity | lia].
Qed.

Lemma trySend_full m ch :
  closed ch = false → length (buf ch) = sendCap →
  trySend m ch = WouldBlock.
Proof.
  intros Hopen Hlen. unfold trySend. rewrite Hopen.
  case_decide; [lia | reflexivity].
Qed.

Lemma trySend_closed m ch : closed ch = true → trySend m ch = SendOnClosed.
Proof. intros Hc. unfold trySend. now rewrite Hc. Qed.

Lemma fullChan_length : length (buf fullChan) = sendCap.
Proof. reflexivity. Qed.

(** ** The monad's primitives *)

Ltac unfoldM :=
  unfold mbind, M_bind, mret, M_ret, emit, store, gets, modify, panic, deref.

Lemma deref_Some p c w : heap w !! p = Some c → deref p w = Done c w.
Proof. intros H. unfold deref. now rewrite H. Qed.

Lemma bind_Done {A B} (m : M A) (k : A → M B) a w w' :
  m w = Done a w' → (m ≫= k) w = k a w'.
Proof. intros H. unfold mbind, M_bind. now rewrite H. Qed.

(** ** [sendError] *)

Lemma sendError_room c cl e w :
  heap w !! c = Some cl →
  closed (Send cl) = false → length (buf (Send cl)) < sendCap →
  sendError c e w =
    Done tt (setHeap (insert c (withSend cl (pushBack (errorMessage e) (Send cl)))) w).
Proof.
  intros Hc Hopen Hlen. unfold sendError.
  rewrite (bind_Done _ _ _ _ _ (deref_Some _ _ _ Hc)).
  now rewrite trySend_room.
Qed.

Lemma sendError_full c cl e w :
  heap w !! c = Some cl →
  closed (Send cl) = false → length (buf (Send cl)) = sendCap →
  sendError c e w =
    Done tt (setTrace (λ t, t ++ [Log Warn [] "Failed to send error message"]) w).
Proof.
  intros Hc Hopen Hlen. unfold sendError.
  rewrite (bind_Done _ _ _ _ _ (deref_Some _ _ _ Hc)).
  now rewrite trySend_full.
Qed.

(** After the hub has closed the queue (eviction or deregistration) the
    send of [sendError] is a send on a closed channel. *)
Lemma sendError_closed c cl e w :
  heap w !! c = Some cl → closed (Send cl) = true →
  sendError c e w = Panic "send on closed channel" w.
Proof.
  intros Hc Hclosed. unfold sendError.
  rewrite (bind_Done _ _ _ _ _ (deref_Some _ _ _ Hc)).
  unfold trySend. now rewrite Hclosed.
Qed.

(** Whatever becomes of the error envelope, [sendError] submits nothing to
    the hub and touches no other session. *)
Lemma sendError_frame c e w :
  broadcast (final (sendError c e w)) = broadcast w ∧
  clients (final (sendError c e w)) = clients w ∧
  unregister (final (sendError c e w)) = unregister w ∧
  ∀ q, q ≠ c → heap (final (sendError c e w)) !! q = heap w !! q.
Proof.
  unfold sendError. unfoldM.
  destruct (heap w !! c) as [cl|] eqn:Hc; simpl; [|done].
  destruct (trySend _ _); simpl; repeat split; try done.
  intros q Hq. now rewrite lookup_insert_ne.
Qed.

(** ** The handlers of inbound envelopes *)

Lemma handleMessage_offer c msg :
  Type_ msg = "offer" → handleMessage c msg = handleOffer c msg.
Proof. intros H. unfold handleMessage. rewrite H. reflexivity. Qed.

Lemma handleMessage_answer c msg :
  Type_ msg = "answer" → handleMessage c msg = handleAnswer c msg.
Proof. intros H. unfold handleMessage. rewrite H. reflexivity. Qed.

Lemma handleMessage_candidate c msg :
  Type_ msg = "ice-candidate" → handleMessage c msg = handleICECandidate c msg.
Proof. intros H. unfold handleMessage. rewrite H. reflexivity. Qed.

(** An offer to a device of another account ends in [sendError]. *)
Lemma handleOffer_cross_account c cl msg toDeviceID toDevice w :
  heap w !! c = Some cl →
  uuid_Parse (ToDeviceID msg) = Some toDeviceID →
  GetByID (deviceRepo w) toDeviceID = (Some toDevice, None) →
  devUserID toDevice ≠ UserID cl →
  ∃ e, handleOffer c msg w = sendError c e w.
Proof.
  intros Hc Hparse Hget Huser. unfold handleOffer.
  case_decide; [eauto |].
  rewrite Hparse. unfold mbind at 1, M_bind, gets. rewrite Hget.
  rewrite (bind_Done _ _ _ _ _ (deref_Some _ _ _ Hc)).
  case_decide; [eauto | contradiction].
Qed.

(** The envelope an answer or a candidate is turned into. *)
Lemma handleAnswer_forwards c cl msg w :
  heap w !! c = Some cl → ToDeviceID msg ≠ "" →
  handleAnswer c msg w =
    Done tt (setBroadcast (λ q, q ++
      [{| Type_ := "answer"; FromDeviceID := uuid_String (DeviceID cl);
          ToDeviceID := ToDeviceID msg; SDP := SDP msg;
          Candidate := None; Error := ""; Data := "" |}]) w).
Proof.
  intros Hc Hto. unfold handleAnswer. case_decide; [contradiction |].
  now rewrite (bind_Done _ _ _ _ _ (deref_Some _ _ _ Hc)).
Qed.

Lemma handleICECandidate_forwards c cl msg w :
  heap w !! c = Some cl → ToDeviceID msg ≠ "" →
  handleICECandidate c msg w =
    Done tt (setBroadcast (λ q, q ++
      [{| Type_ := "ice-candidate"; FromDeviceID := uuid_String (DeviceID cl);
          ToDeviceID := ToDeviceID msg; SDP := None;
          Candidate := Candidate msg; Error := ""; Data := "" |}]) w).
Proof.
  intros Hc Hto. unfold handleICECandidate. case_decide; [contradiction |].
  now rewrite (bind_Done _ _ _ _ _ (deref_Some _ _ _ Hc)).
Qed.

(** With an empty [to_device_id] both handlers end in [sendError]. *)
Lemma handleMessage_no_target c msg w :
  Type_ msg = "answer" ∨ Type_ msg = "ice-candidate" →
  ToDeviceID msg = "" →
  ∃ e, handleMessage c msg w = sendError c e w.
Proof.
  intros [Ht | Ht] Hto.
  - rewrite (handleMessage_answer _ _ Ht). unfold handleAnswer.
    case_decide; [eauto | contradiction].
  - rewrite (handleMessage_candidate _ _ Ht). unfold handleICECandidate.
    case_decide; [eauto | contradiction].
Qed.

(** C1 (as amended). An offer whose sender belongs to one account and whose
    [to_device_id] resolves to a device of another account is never
    submitted for dispatch and changes no other session's queue, whatever
    the state of the sender's queue. While the sender's outbound queue is
    open: an error envelope is appended to it when it has room, and when it
    is full the error envelope is dropped and a warning is logged. Nothing
    is stated about the error envelope of a sender whose queue the hub has
    closed. *)
Theorem cross_account_offer_rejected c cl msg toDeviceID toDevice w :
  heap w !! c = Some cl →
  Type_ msg = "offer" →
  uuid_Parse (ToDeviceID msg) = Some toDeviceID →
  GetByID (deviceRepo w) toDeviceID = (Some toDevice, None) →
  devUserID toDevice ≠ UserID cl →
  (broadcast (final (handleMessage c msg w)) = broadcast w ∧
   ∀ q, q ≠ c → heap (final (handleMessage c msg w)) !! q = heap w !! q) ∧
  (closed (Send cl) = false → length (buf (Send cl)) < sendCap →
   ∃ e, handleMessage c msg w =
     Done tt (setHeap (insert c
       (withSend cl (pushBack (errorMessage e) (Send cl)))) w)) ∧
  (closed (Send cl) = false → length (buf (Send cl)) = sendCap →
   handleMessage c msg w =
     Done tt (setTrace (λ t, t ++ [Log Warn [] "Failed to send error message"]) w)).
Proof.
  intros Hc Ht Hparse Hget Huser.
  rewrite (handleMessage_offer _ _ Ht).
  destruct (handleOffer_cross_account _ _ _ _ _ _ Hc Hparse Hget Huser)
    as [e He].
  rewrite He. split; [|split].
  - destruct (sendError_frame c e w) as (Hb & _ & _ & Hh). auto.
  - intros Hopen Hlen. exists e. now apply (sendError_room c cl).
  - intros Hopen Hlen. now apply (sendError_full c cl).
Qed.

(** C5. Two inbound frames that differ only in the sender they claim are
    handled identically, and whenever handling a frame submits an envelope
    for dispatch, that envelope's [from_device_id] is the text of the
    session's own device identifier. *)
Theorem sender_identity_overwritten c cl msg claimed w :
  heap w !! c = Some cl →
  handleMessage c (withFrom msg claimed) w = handleMessage c msg w ∧
  ∀ w' e, handleMessage c msg w = Done tt w' →
    broadcast w' = broadcast w ++ [e] →
    FromDeviceID e = uuid_String (DeviceID cl).
Proof.
  intros Hc. split; [reflexivity |].
  intros w' e Hrun Hq.
  assert (Hnil : ∀ x, broadcast w ≠ broadcast w ++ [x]).
  { intros x Hx. apply (f_equal length) in Hx. rewrite length_app in Hx.
    simpl in Hx. lia. }
  assert (Hse : ∀ t, sendError c t w = Done tt w' → False).
  { intros t Ht. destruct (sendError_frame c t w) as (Hb & _).
    rewrite Ht in Hb. simpl in Hb. rewrite Hb in Hq. now apply Hnil in Hq. }
  unfold handleMessage in Hrun. repeat case_decide.
  - unfold handleOffer in Hrun. case_decide; [now apply Hse in Hrun |].
    destruct (uuid_Parse _); [| now apply Hse in Hrun].
    unfold mbind at 1, M_bind, gets in Hrun.
    destruct (GetByID _ _) as [[d|] [err|]]; try (now apply Hse in Hrun).
    rewrite (bind_Done _ _ _ _ _ (deref_Some _ _ _ Hc)) in Hrun.
    case_decide; [now apply Hse in Hrun |].
    injection Hrun as <-. simpl in Hq.
    apply app_inv_head in Hq. now injection Hq as <-.
  - unfold handleAnswer in Hrun. case_decide; [now apply Hse in Hrun |].
    rewrite (bind_Done _ _ _ _ _ (deref_Some _ _ _ Hc)) in Hrun.
    injection Hrun as <-. simpl in Hq.
    apply app_inv_head in Hq. now injection Hq as <-.
  - unfold handleICECandidate in Hrun. case_decide; [now apply Hse in Hrun |].
    rewrite (bind_Done _ _ _ _ _ (deref_Some _ _ _ Hc)) in Hrun.
    injection Hrun as <-. simpl in Hq.
    apply app_inv_head in Hq. now injection Hq as <-.
  - unfold emit, modify in Hrun. injection Hrun as <-. simpl in Hq.
    now apply Hnil in Hq.
Qed.

(** C9 (as amended). An answer or a candidate with a non-empty
    [to_device_id] is submitted for dispatch whatever the device repository
    holds: the repository is not consulted and the destination's account is
    not compared with the sender's. With an empty [to_device_id] nothing is
    submitted for dispatch, whatever the state of the sender's queue. While
    the sender's outbound queue is open the session then goes on (nothing
    is written to or closed on the transport, no deregistration is
    requested): an error envelope is appended to the queue when it has
    room, and when it is full the error envelope is dropped and a warning
    is logged. Nothing is stated about the error envelope of a sender whose
    queue the hub has closed. *)
Theorem answer_candidate_not_rechecked c cl msg w :
  heap w !! c = Some cl →
  Type_ msg = "answer" ∨ Type_ msg = "ice-candidate" →
  (ToDeviceID msg ≠ "" →
   ∃ e, Type_ e = Type_ msg ∧ ToDeviceID e = ToDeviceID msg ∧
     handleMessage c msg w = Done tt (setBroadcast (λ q, q ++ [e]) w) ∧
     ∀ repo, handleMessage c msg (setDeviceRepo repo w) =
       Done tt (setBroadcast (λ q, q ++ [e]) (setDeviceRepo repo w))) ∧
  (ToDeviceID msg = "" →
   broadcast (final (handleMessage c msg w)) = broadcast w ∧
   (closed (Send cl) = false → length (buf (Send cl)) < sendCap →
    ∃ e, handleMessage c msg w =
      Done tt (setHeap (insert c
        (withSend cl (pushBack (errorMessage e) (Send cl)))) w)) ∧
   (closed (Send cl) = false → length (buf (Send cl)) = sendCap →
    handleMessage c msg w =
      Done tt (setTrace (λ t, t ++ [Log Warn [] "Failed to send error message"]) w))).
Proof.
  intros Hc Ht. split.
  - intros Hto. destruct Ht as [Ht | Ht].
    + eexists. rewrite (handleMessage_answer _ _ Ht).
      split; [| split; [| split]].
      3: exact (handleAnswer_forwards c cl msg w Hc Hto).
      * now rewrite Ht.
      * reflexivity.
      * intros repo.
        exact (handleAnswer_forwards c cl msg (setDeviceRepo repo w) Hc Hto).
    + eexists. rewrite (handleMessage_candidate _ _ Ht).
      split; [| split; [| split]].
      3: exact (handleICECandidate_forwards c cl msg w Hc Hto).
      * now rewrite Ht.
      * reflexivity.
      * intros repo.
        exact (handleICECandidate_forwards c cl msg (setDeviceRepo repo w) Hc Hto).
  - intros Hto.
    destruct (handleMessage_no_target c msg w Ht Hto) as [e He].
    rewrite He. split; [| split]; [| intros Hopen Hlen ..].
    + now destruct (sendError_frame c e w) as (Hb & _).
    + exists e. now apply (sendError_room c cl).
    + now apply (sendError_full c cl).
Qed.

(** ** The hub *)

Lemma Hub_run_register_spec client c w :
  heap w !! client = Some c →
  Hub_run_register client w =
    Done tt (setTrace (λ t, t ++
               [Log Info [("device_id", uuid_String (DeviceID c))] "Client registered"])
            (setClients (insert (DeviceID c) client) w)).
Proof.
  intros Hc. unfold Hub_run_register.
  now rewrite (bind_Done _ _ _ _ _ (deref_Some _ _ _ Hc)).
Qed.

(** A malformed [to_device_id] makes the dispatch step a no-op. *)
Lemma Hub_run_broadcast_malformed message w :
  uuid_Parse (ToDeviceID message) = None →
  Hub_run_broadcast message w = Done tt w.
Proof. intros H. unfold Hub_run_broadcast. now rewrite H. Qed.

(** Connecting [ps] one after the other. *)
Lemma Hub_run_registers d ps : ∀ w rest,
  register w = ps ++ rest →
  (∀ p, p ∈ ps → ∃ c, heap w !! p = Some c ∧ DeviceID c = d) →
  ∃ w', Hub_run (replicate (length ps) caseRegister) w = Done tt w' ∧
    heap w' = heap w ∧ register w' = rest ∧
    unregister w' = unregister w ∧ broadcast w' = broadcast w ∧
    clients w' = foldl (λ m p, <[d := p]> m) (clients w) ps ∧
    trace w' = trace w ++
      replicate (length ps)
        (Log Info [("device_id", uuid_String d)] "Client registered").
Proof.
  induction ps as [| p ps IH]; intros w rest Hq Hall.
  - exists w. simpl in *. rewrite app_nil_r. repeat split; auto.
  - destruct (Hall p) as (c & Hc & Hd); [left |].
    set (w1 := setTrace (λ t, t ++
               [Log Info [("device_id", uuid_String (DeviceID c))] "Client registered"])
            (setClients (insert (DeviceID c) p)
               (setRegister (λ _, ps ++ rest) w))).
    destruct (IH w1 rest) as (w' & Hrun & Hh & Hr & Hu & Hb & Hcl & Htr).
    { reflexivity. }
    { intros q Hq'. apply Hall. now right. }
    exists w'. split.
    + simpl. unfold mbind at 1, M_bind. unfold Hub_run_iter.
      unfold mbind at 1, M_bind, gets. rewrite Hq. simpl.
      unfold mbind at 1, M_bind, modify.
      rewrite (Hub_run_register_spec p c); [| exact Hc].
      exact Hrun.
    + repeat split; auto.
      * rewrite Hcl. simpl. now rewrite Hd.
      * rewrite Htr. simpl. rewrite Hd. now rewrite <- app_assoc.
Qed.

Lemma foldl_insert_last (d : N) (ps : list nat) : ∀ (m : gmap N nat) (p : nat),
  foldl (λ m p, <[d := p]> m) m (ps ++ [p]) !! d = Some p ∧
  ∀ k, k ≠ d → foldl (λ m p, <[d := p]> m) m (ps ++ [p]) !! k = m !! k.
Proof.
  induction ps as [| q ps IH]; intros m p; simpl.
  - split; [apply lookup_insert_eq |]. intros k Hk. now apply lookup_insert_ne.
  - destruct (IH (<[d := q]> m) p) as [H1 H2]. split; [exact H1 |].
    intros k Hk. rewrite (H2 k Hk). now apply lookup_insert_ne.
Qed.

(** C2 (as amended). After any sequence of connections for one device,
    the last of them is the session the registry holds for that device and
    every other key of the registry is as before. Registration closes
    nothing: every session, the earlier ones of that device included, is
    exactly as it was (its outbound queue is not closed), and the trace
    gains one "Client registered" line per connection and no transport
    operation. *)
Theorem register_replaces_without_retiring d ps last w :
  register w = ps ++ [last] →
  (∀ p, p ∈ ps ++ [last] → ∃ c, heap w !! p = Some c ∧ DeviceID c = d) →
  ∃ w', Hub_run (replicate (length (ps ++ [last])) caseRegister) w = Done tt w' ∧
    clients w' !! d = Some last ∧
    (∀ k, k ≠ d → clients w' !! k = clients w !! k) ∧
    heap w' = heap w ∧
    trace w' = trace w ++
      replicate (length (ps ++ [last]))
        (Log Info [("device_id", uuid_String d)] "Client registered").
Proof.
  intros Hq Hall.
  destruct (Hub_run_registers d (ps ++ [last]) w []) as
    (w' & Hrun & Hh & _ & _ & _ & Hcl & Htr).
  { now rewrite app_nil_r. }
  { exact Hall. }
  exists w'. destruct (foldl_insert_last d ps (clients w) last) as [H1 H2].
  rewrite Hcl. repeat split; auto.
Qed.

(** C7. Dispatching an envelope whose [to_device_id] names a device with
    no registered session only logs the warning "Target device not
    connected": the registry, every session's queue (so the sender's too)
    and the hub's channels are unchanged. *)
Theorem dispatch_target_not_connected message toDeviceID w :
  uuid_Parse (ToDeviceID message) = Some toDeviceID →
  clients w !! toDeviceID = None →
  Hub_run_broadcast message w =
    Done tt (setTrace (λ t, t ++
      [Log Warn [("device_id", ToDeviceID message)] "Target device not connected"]) w).
Proof.
  intros Hparse Hreg. unfold Hub_run_broadcast. rewrite Hparse.
  unfold mbind, M_bind, gets. now rewrite Hreg.
Qed.

(** C8. Dispatching an envelope to a registered session whose outbound
    queue is open and holds 256 messages returns at once: the queue is
    closed with its content unchanged (the envelope is not in it), the
    device is removed from the registry, and nothing else changes: no
    other session's queue, no log line, no transport operation. *)
Theorem dispatch_full_queue_evicts message toDeviceID client c w :
  uuid_Parse (ToDeviceID message) = Some toDeviceID →
  clients w !! toDeviceID = Some client →
  heap w !! client = Some c →
  closed (Send c) = false →
  length (buf (Send c)) = sendCap →
  Hub_run_broadcast message w =
    Done tt (setClients (delete toDeviceID)
              (setHeap (insert client (withSend c (closedChan (Send c)))) w)).
Proof.
  intros Hparse Hreg Hc Hopen Hlen. unfold Hub_run_broadcast. rewrite Hparse.
  unfold mbind at 1, M_bind, gets. rewrite Hreg.
  rewrite (bind_Done _ _ _ _ _ (deref_Some _ _ _ Hc)).
  rewrite (trySend_full _ _ Hopen Hlen).
  unfold closeSend.
  unfold mbind at 1, M_bind.
  rewrite (bind_Done _ _ _ _ _ (deref_Some _ _ _ Hc)).
  unfold closeChan. rewrite Hopen. reflexivity.
Qed.

(** C10. An answer or a candidate whose [to_device_id] is not empty and is
    not a well-formed identifier is submitted for dispatch, and the dispatch
    of the submitted envelope leaves any world exactly as it was: no log
    line, no change of the registry, nothing enqueued for anybody. *)
Theorem malformed_target_forwarded_then_ignored c cl msg w :
  heap w !! c = Some cl →
  Type_ msg = "answer" ∨ Type_ msg = "ice-candidate" →
  ToDeviceID msg ≠ "" →
  uuid_Parse (ToDeviceID msg) = None →
  ∃ e, handleMessage c msg w = Done tt (setBroadcast (λ q, q ++ [e]) w) ∧
    ToDeviceID e = ToDeviceID msg ∧
    ∀ w2, Hub_run_broadcast e w2 = Done tt w2.
Proof.
  intros Hc [Ht | Ht] Hto Hparse; eexists.
  - rewrite (handleMessage_answer _ _ Ht). split; [| split].
    + exact (handleAnswer_forwards c cl msg w Hc Hto).
    + reflexivity.
    + intros w2. now apply Hub_run_broadcast_malformed.
  - rewrite (handleMessage_candidate _ _ Ht). split; [| split].
    + exact (handleICECandidate_forwards c cl msg w Hc Hto).
    + reflexivity.
    + intros w2. now apply Hub_run_broadcast_malformed.
Qed.

(** *** Registered sessions have open queues

    The hub closes a queue only together with removing its device from the
    registry, so the queue of a registered session is open in every world
    the hub reaches, provided sessions register with an open queue (as
    [handleWebSocket] creates them). *)

Lemma registeredOpen_register client c w :
  registeredOpen w →
  heap w !! client = Some c → closed (Send c) = false →
  registeredOpen (final (Hub_run_register client w)).
Proof.
  intros Hinv Hc Hopen. rewrite (Hub_run_register_spec _ _ _ Hc). simpl.
  intros d p Hd. simpl in Hd.
  destruct (decide (DeviceID c = d)) as [<- | Hne].
  - rewrite lookup_insert_eq in Hd. injection Hd as <-. eauto.
  - rewrite lookup_insert_ne in Hd by done. now apply Hinv.
Qed.

Lemma registeredOpen_unregister client w :
  registeredOpen w → registeredOpen (final (Hub_run_unregister client w)).
Proof.
  intros Hinv. unfold Hub_run_unregister, closeSend, closeChan. unfoldM.
  destruct (heap w !! client) as [c |] eqn:Hc; simpl; [| exact Hinv].
  destruct (clients w !! DeviceID c) as [p |] eqn:Hreg; simpl; [| exact Hinv].
  rewrite Hc.
  assert (Hdel : ∀ h : gmap nat Client, (∀ q, q ≠ client → h !! q = heap w !! q) →
    ∀ d q, delete (DeviceID c) (clients w) !! d = Some q →
      ∃ c', h !! q = Some c' ∧ DeviceID c' = d ∧ closed (Send c') = false).
  { intros h Hh d q Hd.
    destruct (decide (DeviceID c = d)) as [<- | Hne].
    - now rewrite lookup_delete_eq in Hd.
    - rewrite lookup_delete_ne in Hd by done.
      destruct (Hinv d q Hd) as (c' & Hq & Hdev & Hopen).
      exists c'. rewrite Hh; [auto |].
      intros ->. rewrite Hc in Hq. injection Hq as <-. contradiction. }
  destruct (closed (Send c)); simpl; intros d q Hd; simpl in Hd;
    (eapply Hdel; [| exact Hd]); intros q' Hq'; [reflexivity |].
  simpl. now rewrite lookup_insert_ne.
Qed.

Lemma registeredOpen_broadcast message w :
  registeredOpen w → registeredOpen (final (Hub_run_broadcast message w)).
Proof.
  intros Hinv. unfold Hub_run_broadcast, closeSend, closeChan.
  destruct (uuid_Parse _) as [toDeviceID |]; [| exact Hinv]. unfoldM.
  destruct (clients w !! toDeviceID) as [client |] eqn:Hreg; simpl;
    [| exact Hinv].
  destruct (Hinv _ _ Hreg) as (c & Hc & Hdev & Hopen). rewrite Hc.
  unfold trySend. rewrite Hopen. case_decide; simpl.
  - intros d q Hd. simpl in Hd. simpl.
    destruct (decide (q = client)) as [-> | Hne].
    + rewrite lookup_insert_eq.
      destruct (Hinv d client Hd) as (c' & Hc' & Hdev' & _).
      rewrite Hc in Hc'. injection Hc' as <-. eauto.
    + rewrite lookup_insert_ne by done. now apply Hinv.
  - rewrite Hc, Hopen. simpl. intros d q Hd. simpl in Hd. simpl.
    destruct (decide (toDeviceID = d)) as [<- | Hne].
    + now rewrite lookup_delete_eq in Hd.
    + rewrite lookup_delete_ne in Hd by done.
      destruct (Hinv d q Hd) as (c' & Hq & Hdev' & Hopen').
      exists c'. rewrite lookup_insert_ne; [auto |].
      intros ->. rewrite Hc in Hq. injection Hq as <-. congruence.
Qed.

(** ** The read loop *)




(** ** The handshake *)

Lemma reject_spec conn e w :
  reject conn e w =
    Done tt (setTrace (λ t, t ++
      [WriteJSON conn (errorMessage e); ConnClose conn]) w).
Proof.
  unfold reject. unfoldM. unfold setTrace. simpl.
  now rewrite <- app_assoc.
Qed.

(** C6. On an upgraded connection, when [device_id] or [device_token] is
    missing, [device_id] is not a well-formed identifier, the look-up by
    token fails or finds no device, or the device found has another
    identifier than the one claimed, the server writes one error envelope
    to the connection and closes it, and nothing else happens: no session
    is allocated, nothing is sent to the hub's register channel, and the
    registry is unchanged. *)
Theorem failed_admission_rejected r conn w :
  upgrade r = inl conn →
  device_id r = "" ∨ device_token r = "" ∨
  uuid_Parse (device_id r) = None ∨
  (∃ e, GetByToken (deviceRepo w) (device_token r) = (None, Some e)) ∨
  GetByToken (deviceRepo w) (device_token r) = (None, None) ∨
  (∃ device deviceID,
     GetByToken (deviceRepo w) (device_token r) = (Some device, None) ∧
     uuid_Parse (device_id r) = Some deviceID ∧
     devID device ≠ deviceID) →
  ∃ e, handleWebSocket r w =
    Done tt (setTrace (λ t, t ++
      [WriteJSON conn (errorMessage e); ConnClose conn]) w).
Proof.
  clear uuid_String. intros Hup Hfail. unfold handleWebSocket. rewrite Hup.
  case_decide as Hempty; [eexists; apply reject_spec |].
  destruct (uuid_Parse (device_id r)) as [deviceID |] eqn:Hparse;
    [| eexists; apply reject_spec].
  unfold mbind at 1, M_bind, gets.
  destruct (GetByToken (deviceRepo w) (device_token r)) as [[device |] [err |]]
    eqn:Hget; try (eexists; apply reject_spec).
  case_decide as Hid; [eexists; apply reject_spec |].
  exfalso.
  destruct Hfail as [H | [H | [H | [[e H] | [H | (dv & id & H & Hp & Hne)]]]]];
    try tauto; try discriminate.
  injection H as <-. injection Hp as <-. tauto.
Qed.

(** * Further properties of the signaling server *)

(** ** Admission *)

(** The admitted session. *)
Lemma handleWebSocket_admits r conn deviceID device w :
  upgrade r = inl conn →
  device_id r ≠ "" → device_token r ≠ "" →
  uuid_Parse (device_id r) = Some deviceID →
  GetByToken (deviceRepo w) (device_token r) = (Some device, None) →
  devID device = deviceID →
  handleWebSocket r w =
    Done tt
      (setTrace (λ t, t ++ [GoReadPump (fresh (dom (heap w)))])
      (setTrace (λ t, t ++ [GoWritePump (fresh (dom (heap w)))])
      (setRegister (λ q, q ++ [fresh (dom (heap w))])
      (setHeap (insert (fresh (dom (heap w)))
         {| ID := newID r; UserID := devUserID device;
            DeviceID := deviceID; Conn := conn;
            Send := makeChan; LastSeen := now r |})
      (setTrace (λ t, t ++ [UpdateLastSeen deviceID]) w))))).
Proof.
  clear uuid_String.
  intros Hup Hid Htok Hparse Hget Hdev.
  unfold handleWebSocket. rewrite Hup.
  case_decide as Hempty; [tauto |]. rewrite Hparse.
  unfold mbind at 1, M_bind, gets. rewrite Hget.
  case_decide as Hne; [contradiction | reflexivity].
Qed.

(** X1. With both parameters present, a well-formed [device_id] and a
    token that resolves to the device of that identifier, the handshake
    allocates a session at a fresh address, taking the account from the
    repository's record, with an empty open queue; it asks the repository
    to touch the device's last-seen time, sends the session to the hub's
    register channel and starts both pumps. Nothing is written to the
    connection and it is not closed. *)
Theorem admission_creates_session r conn deviceID device w :
  upgrade r = inl conn →
  device_id r ≠ "" → device_token r ≠ "" →
  uuid_Parse (device_id r) = Some deviceID →
  GetByToken (deviceRepo w) (device_token r) = (Some device, None) →
  devID device = deviceID →
  heap w !! fresh (dom (heap w)) = None ∧
  ∃ w', handleWebSocket r w = Done tt w' ∧
    heap w' = <[fresh (dom (heap w)) :=
                 {| ID := newID r; UserID := devUserID device;
                    DeviceID := deviceID; Conn := conn;
                    Send := makeChan; LastSeen := now r |}]> (heap w) ∧
    register w' = register w ++ [fresh (dom (heap w))] ∧
    clients w' = clients w ∧ unregister w' = unregister w ∧
    broadcast w' = broadcast w ∧
    trace w' = trace w ++ [UpdateLastSeen deviceID;
                           GoWritePump (fresh (dom (heap w)));
                           GoReadPump (fresh (dom (heap w)))].
Proof.
  intros Hup Hid Htok Hparse Hget Hdev. split.
  - apply not_elem_of_dom. apply is_fresh.
  - rewrite (handleWebSocket_admits r conn deviceID device w) by assumption.
    eexists. split; [reflexivity |]. simpl.
    repeat split. now rewrite <- !app_assoc.
Qed.

(** X2. A connection, from the handshake to the registry: when no other
    registration is pending, the hub's next register iteration after a
    successful handshake makes the new session the one registered for its
    device, and that session's queue is empty and open. *)
Theorem connect_then_register r conn deviceID device w :
  upgrade r = inl conn →
  device_id r ≠ "" → device_token r ≠ "" →
  uuid_Parse (device_id r) = Some deviceID →
  GetByToken (deviceRepo w) (device_token r) = (Some device, None) →
  devID device = deviceID →
  register w = [] →
  ∃ w', (handleWebSocket r ;; Hub_run_iter caseRegister) w = Done tt w' ∧
    clients w' = <[deviceID := fresh (dom (heap w))]> (clients w) ∧
    register w' = [] ∧
    ∃ cl, heap w' !! fresh (dom (heap w)) = Some cl ∧
      UserID cl = devUserID device ∧ DeviceID cl = deviceID ∧
      Conn cl = conn ∧ Send cl = makeChan.
Proof.
  intros Hup Hid Htok Hparse Hget Hdev Hq.
  rewrite (bind_Done _ _ _ _ _
             (handleWebSocket_admits r conn deviceID device w
                Hup Hid Htok Hparse Hget Hdev)).
  unfold Hub_run_iter. unfold mbind at 1, M_bind, gets.
  simpl. rewrite Hq. simpl. unfold mbind at 1, M_bind, modify.
  erewrite Hub_run_register_spec.
  2: { simpl. apply lookup_insert_eq. }
  eexists. split; [reflexivity |]. simpl.
  split; [reflexivity |]. split; [reflexivity |].
  eexists. split; [apply lookup_insert_eq |]. repeat split.
Qed.

(** ** What a session forwards *)

(** X3. An offer whose target resolves to a device of the sender's own
    account is submitted for dispatch as an offer envelope carrying the
    session's device identifier, the target as given and the SDP as given;
    the client's candidate, error and data fields are not forwarded. The
    registry is not consulted: the target need not be connected. *)
Theorem same_account_offer_forwarded c cl msg toDeviceID toDevice w :
  heap w !! c = Some cl →
  Type_ msg = "offer" → ToDeviceID msg ≠ "" →
  uuid_Parse (ToDeviceID msg) = Some toDeviceID →
  GetByID (deviceRepo w) toDeviceID = (Some toDevice, None) →
  devUserID toDevice = UserID cl →
  handleMessage c msg w =
    Done tt (setBroadcast (λ q, q ++
      [{| Type_ := "offer"; FromDeviceID := uuid_String (DeviceID cl);
          ToDeviceID := ToDeviceID msg; SDP := SDP msg;
          Candidate := None; Error := ""; Data := "" |}]) w).
Proof.
  intros Hc Ht Hto Hparse Hget Huser.
  rewrite (handleMessage_offer _ _ Ht). unfold handleOffer.
  case_decide; [contradiction |]. rewrite Hparse.
  unfold mbind at 1, M_bind, gets. rewrite Hget.
  rewrite (bind_Done _ _ _ _ _ (deref_Some _ _ _ Hc)).
  case_decide; [contradiction | reflexivity].
Qed.

(** X4. Whatever a session submits for dispatch is an offer, an answer or
    a candidate with a non-empty target, rebuilt by the server: kind and
    target as received, sender set by the server, the payload of that kind
    only, error and data empty. A submitted offer moreover has a target
    that the repository resolves to a device of the sender's account.
    Handling a message that submits something changes nothing else. *)
Theorem submitted_envelope_shape c cl msg w w' :
  heap w !! c = Some cl →
  handleMessage c msg w = Done tt w' →
  broadcast w' ≠ broadcast w →
  (Type_ msg = "offer" ∨ Type_ msg = "answer" ∨ Type_ msg = "ice-candidate") ∧
  ToDeviceID msg ≠ "" ∧
  w' = setBroadcast (λ q, q ++ [envelopeOf (DeviceID cl) msg]) w ∧
  (Type_ msg = "offer" →
   ∃ toDeviceID toDevice,
     uuid_Parse (ToDeviceID msg) = Some toDeviceID ∧
     GetByID (deviceRepo w) toDeviceID = (Some toDevice, None) ∧
     devUserID toDevice = UserID cl).
Proof.
  intros Hc Hrun Hq.
  assert (Hse : ∀ t, sendError c t w = Done tt w' → False).
  { intros t Ht. destruct (sendError_frame c t w) as (Hb & _).
    rewrite Ht in Hb. simpl in Hb. contradiction. }
  unfold handleMessage in Hrun.
  destruct (decide (Type_ msg = "offer")) as [Ht | Hno].
  - unfold handleOffer in Hrun.
    case_decide as Hto; [now apply Hse in Hrun |].
    destruct (uuid_Parse (ToDeviceID msg)) as [toDeviceID |] eqn:Hparse;
      [| now apply Hse in Hrun].
    unfold mbind at 1, M_bind, gets in Hrun.
    destruct (GetByID (deviceRepo w) toDeviceID) as [[d |] [err |]] eqn:Hget;
      try (now apply Hse in Hrun).
    rewrite (bind_Done _ _ _ _ _ (deref_Some _ _ _ Hc)) in Hrun.
    case_decide as Hu; [now apply Hse in Hrun |].
    injection Hrun as <-. split; [auto |]. split; [exact Hto |]. split.
    + unfold envelopeOf. rewrite Ht. reflexivity.
    + intros _. exists toDeviceID, d. split; [reflexivity |].
      split; [exact Hget | exact Hu].
  - destruct (decide (Type_ msg = "answer")) as [Ht | Hna].
    + unfold handleAnswer in Hrun.
      case_decide as Hto; [now apply Hse in Hrun |].
      rewrite (bind_Done _ _ _ _ _ (deref_Some _ _ _ Hc)) in Hrun.
      injection Hrun as <-. split; [auto |]. split; [exact Hto |]. split.
      * unfold envelopeOf. rewrite Ht. reflexivity.
      * intros Ho. congruence.
    + destruct (decide (Type_ msg = "ice-candidate")) as [Ht | Hni].
      * unfold handleICECandidate in Hrun.
        case_decide as Hto; [now apply Hse in Hrun |].
        rewrite (bind_Done _ _ _ _ _ (deref_Some _ _ _ Hc)) in Hrun.
        injection Hrun as <-. split; [auto |]. split; [exact Hto |]. split.
        -- unfold envelopeOf. rewrite Ht. reflexivity.
        -- intros Ho. congruence.
      * unfold emit, modify in Hrun. injection Hrun as <-.
        simpl in Hq. contradiction.
Qed.

(** ** Dispatch to a connected session *)

Lemma withSend_same c ch : Send c = ch → withSend c ch = c.
Proof. intros <-. now destruct c. Qed.

Lemma Hub_run_broadcast_room message toDeviceID client c w :
  uuid_Parse (ToDeviceID message) = Some toDeviceID →
  clients w !! toDeviceID = Some client →
  heap w !! client = Some c →
  closed (Send c) = false → length (buf (Send c)) < sendCap →
  Hub_run_broadcast message w =
    Done tt (setHeap (insert client (withSend c (pushBack message (Send c)))) w).
Proof.
  clear uuid_String.
  intros Hparse Hreg Hc Hopen Hlen. unfold Hub_run_broadcast. rewrite Hparse.
  unfold mbind at 1, M_bind, gets. rewrite Hreg.
  rewrite (bind_Done _ _ _ _ _ (deref_Some _ _ _ Hc)).
  now rewrite (trySend_room _ _ Hopen Hlen).
Qed.

Lemma Hub_run_broadcasts toDeviceID client ms : ∀ c w rest,
  broadcast w = ms ++ rest →
  Forall (λ m, uuid_Parse (ToDeviceID m) = Some toDeviceID) ms →
  clients w !! toDeviceID = Some client →
  heap w !! client = Some c →
  closed (Send c) = false →
  (length (buf (Send c)) + length ms ≤ sendCap)%nat →
  ∃ w', Hub_run (replicate (length ms) caseBroadcast) w = Done tt w' ∧
    heap w' !! client =
      Some (withSend c {| buf := buf (Send c) ++ ms; closed := false |}) ∧
    (∀ q, q ≠ client → heap w' !! q = heap w !! q) ∧
    clients w' = clients w ∧ broadcast w' = rest ∧ trace w' = trace w.
Proof.
  induction ms as [| m ms IH]; intros c w rest Hq Hall Hreg Hc Hopen Hlen.
  - exists w. simpl. split; [reflexivity |]. split.
    + rewrite Hc. f_equal. symmetry. apply withSend_same.
      rewrite app_nil_r. destruct (Send c); simpl in *. now subst.
    + repeat split; auto.
  - inversion Hall as [| ? ? Hm Hms]; subst.
    simpl in Hlen.
    set (c1 := withSend c (pushBack m (Send c))).
    set (w1 := setHeap (insert client c1) (setBroadcast (λ _, ms ++ rest) w)).
    destruct (IH c1 w1 rest) as (w' & Hrun & Hh & Hother & Hcl & Hb & Htr).
    { reflexivity. }
    { exact Hms. }
    { exact Hreg. }
    { simpl. apply lookup_insert_eq. }
    { exact Hopen. }
    { simpl. rewrite length_app. simpl. lia. }
    exists w'. split.
    + simpl. unfold mbind at 1, M_bind. unfold Hub_run_iter.
      unfold mbind at 1, M_bind, gets. rewrite Hq. simpl.
      unfold mbind at 1, M_bind, modify.
      rewrite (Hub_run_broadcast_room m toDeviceID client c);
        [exact Hrun | exact Hm | exact Hreg | exact Hc | exact Hopen | lia].
    + split; [| split; [| repeat split; auto]].
      * rewrite Hh. simpl. unfold withSend. simpl.
        now rewrite <- app_assoc.
      * intros q Hne. rewrite (Hother q Hne). simpl.
        now rewrite lookup_insert_ne.
Qed.

(** X5. Envelopes for one connected device whose queue has room for all
    of them are appended to that queue in the order the hub receives them,
    unaltered, and the queue stays open; the registry, every other session
    and the log are left as they are. *)
Theorem dispatch_preserves_order toDeviceID client c ms rest w :
  broadcast w = ms ++ rest →
  Forall (λ m, uuid_Parse (ToDeviceID m) = Some toDeviceID) ms →
  clients w !! toDeviceID = Some client →
  heap w !! client = Some c →
  closed (Send c) = false →
  (length (buf (Send c)) + length ms ≤ sendCap)%nat →
  ∃ w' c', Hub_run (replicate (length ms) caseBroadcast) w = Done tt w' ∧
    heap w' !! client = Some c' ∧
    buf (Send c') = buf (Send c) ++ ms ∧ closed (Send c') = false ∧
    (∀ q, q ≠ client → heap w' !! q = heap w !! q) ∧
    clients w' = clients w ∧ broadcast w' = rest ∧ trace w' = trace w.
Proof.
  intros Hq Hall Hreg Hc Hopen Hlen.
  destruct (Hub_run_broadcasts toDeviceID client ms c w rest
              Hq Hall Hreg Hc Hopen Hlen)
    as (w' & Hrun & Hh & Hother & Hcl & Hb & Htr).
  exists w'. eexists. split; [exact Hrun |]. split; [exact Hh |].
  simpl. repeat split; auto.
Qed.

(** ** The write pump *)

(** What the write loop does, whatever the steps. *)
Lemma writeLoop_spec c steps : ∀ cl w,
  heap w !! c = Some cl →
  ∃ st ops k w', writeLoop c steps w = Done (st, ops) w' ∧
    written ops = take k (buf (Send cl)) ∧
    heap w' !! c =
      Some (withSend cl {| buf := drop k (buf (Send cl));
                           closed := closed (Send cl) |}) ∧
    (∀ q, q ≠ c → heap w' !! q = heap w !! q) ∧
    clients w' = clients w ∧ register w' = register w ∧
    unregister w' = unregister w ∧ broadcast w' = broadcast w ∧
    trace w' = trace w.
Proof.
  induction steps as [| s steps IH]; intros cl w Hc.
  - exists Writing, [], 0, w. simpl. split; [reflexivity |].
    split; [reflexivity |]. split; [| repeat split; auto].
    rewrite Hc. f_equal. symmetry. apply withSend_same.
    now destruct (Send cl).
  - destruct s as [t werr | t werr]; simpl.
    + rewrite (bind_Done _ _ _ _ _ (deref_Some _ _ _ Hc)).
      unfold recv. destruct (buf (Send cl)) as [| m rest] eqn:Hbuf.
      * destruct (closed (Send cl)) eqn:Hcl.
        -- exists Stopped. eexists. exists 0, w.
           split; [reflexivity |]. split; [reflexivity |].
           split; [| repeat split; auto].
           rewrite Hc. f_equal. symmetry. apply withSend_same.
           destruct (Send cl); simpl in *. now subst.
        -- destruct (IH cl w Hc) as (st & ops & k & w' & Hrun & Hwr & Hh & Hrest).
           exists st, ops, k, w'. rewrite Hbuf in Hwr, Hh. rewrite Hcl in Hh.
           split; [exact Hrun |]. split; [exact Hwr |]. split; [exact Hh |].
           exact Hrest.
      * set (cl1 := withSend cl {| buf := rest; closed := closed (Send cl) |}).
        unfold mbind at 1, M_bind, store, modify.
        destruct werr as [err |].
        -- exists Stopped. eexists. exists 1. eexists.
           split; [reflexivity |]. split; [reflexivity |]. simpl.
           split; [apply lookup_insert_eq |].
           split; [intros q Hq; now apply lookup_insert_ne |].
           repeat split.
        -- destruct (IH cl1 (setHeap (insert c cl1) w))
             as (st & ops & k & w' & Hrun & Hwr & Hh & Hother & Hrest).
           { simpl. apply lookup_insert_eq. }
           rewrite (bind_Done _ _ _ _ _ Hrun).
           exists st. eexists. exists (S k), w'.
           split; [reflexivity |]. simpl. split; [now rewrite Hwr |].
           split; [exact Hh |].
           split; [| exact Hrest].
           intros q Hq. rewrite (Hother q Hq). simpl.
           now apply lookup_insert_ne.
    + rewrite (bind_Done _ _ _ _ _ (deref_Some _ _ _ Hc)).
      destruct werr as [err |].
      * exists Stopped. eexists. exists 0, w.
        split; [reflexivity |]. split; [reflexivity |].
        split; [| repeat split; auto].
        rewrite Hc. f_equal. symmetry. apply withSend_same.
        now destruct (Send cl).
      * destruct (IH cl w Hc) as (st & ops & k & w' & Hrun & Hwr & Hrest).
        rewrite (bind_Done _ _ _ _ _ Hrun).
        exists st. eexists. exists k, w'.
        split; [reflexivity |]. split; [exact Hwr | exact Hrest].
Qed.

Lemma written_app ops1 ops2 : written (ops1 ++ ops2) = written ops1 ++ written ops2.
Proof. unfold written. apply omap_app. Qed.

(** X6. Whatever the order of queue receptions and ticks and whichever
    writes fail, the write pump of an allocated session does not panic;
    the messages it hands to the transport are the first [k] of its queue,
    in order, and exactly those leave the queue; it changes nothing else
    (it neither deregisters the session nor closes its queue); and when it
    returns, the last thing it does is close the transport. *)
Theorem writePump_takes_queue_in_order c cl steps w :
  heap w !! c = Some cl →
  ∃ st ops k w', writePump c steps w = Done (st, ops) w' ∧
    written ops = take k (buf (Send cl)) ∧
    heap w' !! c =
      Some (withSend cl {| buf := drop k (buf (Send cl));
                           closed := closed (Send cl) |}) ∧
    (∀ q, q ≠ c → heap w' !! q = heap w !! q) ∧
    clients w' = clients w ∧ register w' = register w ∧
    unregister w' = unregister w ∧ broadcast w' = broadcast w ∧
    trace w' = trace w ∧
    (st = Stopped →
     ∃ ops0, ops = ops0 ++ [TickerStop; Ev (ConnClose (Conn cl))]).
Proof.
  intros Hc.
  destruct (writeLoop_spec c steps cl w Hc)
    as (st & ops & k & w' & Hrun & Hwr & Hh & Hq & Hcl & Hr & Hu & Hb & Ht).
  unfold writePump.
  rewrite (bind_Done _ _ _ _ _ (deref_Some _ _ _ Hc)).
  rewrite (bind_Done _ _ _ _ _ Hrun). simpl.
  destruct st.
  - exists Writing, ops, k, w'. split; [reflexivity |].
    repeat split; auto. discriminate.
  - exists Stopped, (ops ++ [TickerStop; Ev (ConnClose (Conn cl))]), k, w'.
    split; [reflexivity |]. rewrite written_app. simpl. rewrite app_nil_r.
    repeat split; auto. intros _. now exists ops.
Qed.

(** The loop over receptions whose writes all succeed. *)
Lemma writeLoop_delivers c ts : ∀ ms rest cl w,
  heap w !! c = Some cl →
  buf (Send cl) = ms ++ rest →
  length ts = length ms →
  ∃ ops w', writeLoop c (map (λ t, FromSend t None) ts) w = Done (Writing, ops) w' ∧
    written ops = ms ∧
    heap w' !! c =
      Some (withSend cl {| buf := rest; closed := closed (Send cl) |}) ∧
    (∀ q, q ≠ c → heap w' !! q = heap w !! q) ∧
    clients w' = clients w ∧ trace w' = trace w.
Proof.
  induction ts as [| t ts IH]; intros ms rest cl w Hc Hbuf Hlen.
  - destruct ms; [| discriminate]. simpl in Hbuf.
    exists [], w. split; [reflexivity |]. split; [reflexivity |].
    split; [| repeat split; auto].
    rewrite Hc. f_equal. symmetry. apply withSend_same.
    destruct (Send cl); simpl in *. now subst.
  - destruct ms as [| m ms]; [discriminate |]. simpl in Hbuf, Hlen.
    simpl. rewrite (bind_Done _ _ _ _ _ (deref_Some _ _ _ Hc)).
    unfold recv. rewrite Hbuf.
    set (cl1 := withSend cl {| buf := ms ++ rest; closed := closed (Send cl) |}).
    unfold mbind at 1, M_bind, store, modify.
    destruct (IH ms rest cl1 (setHeap (insert c cl1) w))
      as (ops & w' & Hrun & Hwr & Hh & Hq & Hcl & Htr).
    { simpl. apply lookup_insert_eq. }
    { reflexivity. }
    { lia. }
    rewrite (bind_Done _ _ _ _ _ Hrun).
    eexists. exists w'. split; [reflexivity |]. simpl.
    split; [now rewrite Hwr |]. split; [exact Hh |].
    split; [| split; auto].
    intros q Hne. rewrite (Hq q Hne). simpl. now apply lookup_insert_ne.
Qed.

(** X7. End to end, for a connected device whose queue has room:
    envelopes the hub dispatches to it are written to its transport after
    those already queued, in the order the hub received them, when every
    write succeeds. *)
Theorem dispatch_then_write_in_order toDeviceID client c ms ts w :
  broadcast w = ms →
  Forall (λ m, uuid_Parse (ToDeviceID m) = Some toDeviceID) ms →
  clients w !! toDeviceID = Some client →
  heap w !! client = Some c →
  closed (Send c) = false →
  (length (buf (Send c)) + length ms ≤ sendCap)%nat →
  length ts = (length (buf (Send c)) + length ms)%nat →
  ∃ ops w',
    (Hub_run (replicate (length ms) caseBroadcast);;
     writePump client (map (λ t, FromSend t None) ts)) w =
      Done (Writing, ops) w' ∧
    written ops = buf (Send c) ++ ms ∧
    ∃ c', heap w' !! client = Some c' ∧ buf (Send c') = [] ∧
      closed (Send c') = false.
Proof.
  intros Hq Hall Hreg Hc Hopen Hroom Hlen.
  destruct (Hub_run_broadcasts toDeviceID client ms c w [])
    as (w1 & Hrun & Hh & _); auto.
  { now rewrite app_nil_r. }
  rewrite (bind_Done _ _ _ _ _ Hrun).
  destruct (writeLoop_delivers client ts (buf (Send c) ++ ms) [] _ w1 Hh)
    as (ops & w' & Hloop & Hwr & Hh' & _).
  { simpl. now rewrite app_nil_r. }
  { rewrite length_app. exact Hlen. }
  unfold writePump.
  rewrite (bind_Done _ _ _ _ _ (deref_Some _ _ _ Hh)).
  rewrite (bind_Done _ _ _ _ _ Hloop). simpl.
  exists ops, w'. split; [reflexivity |]. split; [exact Hwr |].
  eexists. split; [exact Hh' |]. split; reflexivity.
Qed.

(** X8. A queue that was closed with messages still in it is drained
    first: the pump writes every buffered message, in order, and only then
    sends the close frame, stops its ticker and closes the transport. *)
Theorem writePump_drains_closed_queue c ts t e : ∀ ms cl w,
  heap w !! c = Some cl →
  closed (Send cl) = true →
  buf (Send cl) = ms →
  length ts = length ms →
  ∃ ops w',
    writePump c (map (λ t, FromSend t None) ts ++ [FromSend t e]) w =
      Done (Stopped,
            ops ++ [SetWriteDeadline (Conn cl) (t + 10 * Second);
                    WriteMessage (Conn cl) CloseMessage;
                    TickerStop; Ev (ConnClose (Conn cl))]) w' ∧
    written ops = ms ∧
    heap w' !! c = Some (withSend cl {| buf := []; closed := true |}) ∧
    clients w' = clients w.
Proof.
  intros ms cl w Hc Hclosed Hbuf Hlen.
  assert (Hloop : ∀ ts ms cl w,
    heap w !! c = Some cl → closed (Send cl) = true →
    buf (Send cl) = ms → length ts = length ms →
    ∃ ops w',
      writeLoop c (map (λ t, FromSend t None) ts ++ [FromSend t e]) w =
        Done (Stopped,
              ops ++ [SetWriteDeadline (Conn cl) (t + 10 * Second);
                      WriteMessage (Conn cl) CloseMessage]) w' ∧
      written ops = ms ∧
      heap w' !! c = Some (withSend cl {| buf := []; closed := true |}) ∧
      clients w' = clients w).
  { clear. induction ts as [| t0 ts IH]; intros ms cl w Hc Hclosed Hbuf Hlen.
    - destruct ms; [| discriminate]. simpl.
      rewrite (bind_Done _ _ _ _ _ (deref_Some _ _ _ Hc)).
      unfold recv. rewrite Hbuf, Hclosed.
      exists [], w. split; [reflexivity |]. split; [reflexivity |].
      split; [| reflexivity].
      rewrite Hc. f_equal. symmetry. apply withSend_same.
      destruct (Send cl); simpl in *. now subst.
    - destruct ms as [| m ms]; [discriminate |]. simpl in Hlen. simpl.
      rewrite (bind_Done _ _ _ _ _ (deref_Some _ _ _ Hc)).
      unfold recv. rewrite Hbuf, Hclosed.
      set (cl1 := withSend cl {| buf := ms; closed := true |}).
      unfold mbind at 1, M_bind, store, modify.
      destruct (IH ms cl1 (setHeap (insert c cl1) w))
        as (ops & w' & Hrun & Hwr & Hh & Hcl).
      { simpl. apply lookup_insert_eq. }
      { reflexivity. }
      { reflexivity. }
      { lia. }
      rewrite (bind_Done _ _ _ _ _ Hrun).
      eexists (_ :: _ :: ops). exists w'. split; [reflexivity |]. simpl.
      split; [now rewrite Hwr |]. split; [exact Hh | exact Hcl]. }
  destruct (Hloop ts ms cl w Hc Hclosed Hbuf Hlen)
    as (ops & w' & Hrun & Hwr & Hh & Hcl).
  unfold writePump.
  rewrite (bind_Done _ _ _ _ _ (deref_Some _ _ _ Hc)).
  rewrite (bind_Done _ _ _ _ _ Hrun). simpl.
  exists ops, w'. split; [| auto].
  now rewrite <- app_assoc.
Qed.

(** X9. When the write of a message fails, the pump logs the failure and
    returns, closing the transport: the message has left the queue and is
    lost, the messages behind it stay in the queue unwritten, and the
    session is still in the registry with its queue open. *)
Theorem writePump_failed_write c cl m rest t err more w :
  heap w !! c = Some cl →
  buf (Send cl) = m :: rest →
  writePump c (FromSend t (Some err) :: more) w =
    Done (Stopped,
          [SetWriteDeadline (Conn cl) (t + 10 * Second);
           Ev (WriteJSON (Conn cl) m);
           Ev (Log Err [("error", err)] "Failed to write message");
           TickerStop; Ev (ConnClose (Conn cl))])
      (setHeap (insert c
         (withSend cl {| buf := rest; closed := closed (Send cl) |})) w).
Proof.
  intros Hc Hbuf. unfold writePump.
  rewrite (bind_Done _ _ _ _ _ (deref_Some _ _ _ Hc)). simpl.
  unfold mbind at 1, M_bind.
  rewrite (bind_Done _ _ _ _ _ (deref_Some _ _ _ Hc)).
  unfold recv. rewrite Hbuf. reflexivity.
Qed.

(** ** Deregistration and eviction *)

Lemma Hub_run_unregister_absent client c w :
  heap w !! client = Some c →
  clients w !! DeviceID c = None →
  Hub_run_unregister client w =
    Done tt (setTrace (λ t, t ++
      [Log Info [("device_id", uuid_String (DeviceID c))] "Client unregistered"]) w).
Proof.
  intros Hc Hreg. unfold Hub_run_unregister.
  rewrite (bind_Done _ _ _ _ _ (deref_Some _ _ _ Hc)).
  unfold mbind at 1, M_bind, gets. now rewrite Hreg.
Qed.

Lemma Hub_run_unregister_present client c other w :
  heap w !! client = Some c →
  clients w !! DeviceID c = Some other →
  closed (Send c) = false →
  Hub_run_unregister client w =
    Done tt (setTrace (λ t, t ++
      [Log Info [("device_id", uuid_String (DeviceID c))] "Client unregistered"])
      (setHeap (insert client (withSend c (closedChan (Send c))))
         (setClients (delete (DeviceID c)) w))).
Proof.
  intros Hc Hreg Hopen. unfold Hub_run_unregister, closeSend, closeChan.
  unfoldM. rewrite Hc. simpl. rewrite Hreg. simpl.
  rewrite Hc, Hopen. reflexivity.
Qed.

(** X10. Deregistering the session that is registered for its device
    removes the device from the registry and closes the session's queue,
    keeping what is buffered; deregistering it a second time, with nobody
    registered for the device in between, only adds a log line. *)
Theorem unregister_twice client c w :
  heap w !! client = Some c →
  clients w !! DeviceID c = Some client →
  closed (Send c) = false →
  ∃ w1, Hub_run_unregister client w = Done tt w1 ∧
    clients w1 = delete (DeviceID c) (clients w) ∧
    heap w1 = <[client := withSend c (closedChan (Send c))]> (heap w) ∧
    Hub_run_unregister client w1 =
      Done tt (setTrace (λ t, t ++
        [Log Info [("device_id", uuid_String (DeviceID c))] "Client unregistered"])
        w1).
Proof.
  intros Hc Hreg Hopen.
  rewrite (Hub_run_unregister_present client c client w Hc Hreg Hopen).
  eexists. split; [reflexivity |]. split; [reflexivity |].
  split; [reflexivity |].
  apply (Hub_run_unregister_absent client (withSend c (closedChan (Send c)))).
  - simpl. apply lookup_insert_eq.
  - simpl. apply lookup_delete_eq.
Qed.

Lemma Hub_run_broadcast_full message toDeviceID client c w :
  uuid_Parse (ToDeviceID message) = Some toDeviceID →
  clients w !! toDeviceID = Some client →
  heap w !! client = Some c →
  closed (Send c) = false → length (buf (Send c)) = sendCap →
  Hub_run_broadcast message w =
    Done tt (setClients (delete toDeviceID)
              (setHeap (insert client (withSend c (closedChan (Send c)))) w)).
Proof.
  clear uuid_String.
  intros Hparse Hreg Hc Hopen Hlen. unfold Hub_run_broadcast. rewrite Hparse.
  unfold mbind at 1, M_bind, gets. rewrite Hreg.
  rewrite (bind_Done _ _ _ _ _ (deref_Some _ _ _ Hc)).
  rewrite (trySend_full _ _ Hopen Hlen).
  unfold closeSend. unfold mbind at 1, M_bind.
  rewrite (bind_Done _ _ _ _ _ (deref_Some _ _ _ Hc)).
  unfold closeChan. rewrite Hopen. reflexivity.
Qed.

(** X11. Eviction followed by the session's own teardown: after a
    dispatch has evicted a session for a full queue, the deregistration
    that session's read loop asks for finds the device gone from the
    registry and only logs; the queue is closed once and the hub does not
    panic. *)
Theorem evict_then_unregister message client c w :
  uuid_Parse (ToDeviceID message) = Some (DeviceID c) →
  clients w !! DeviceID c = Some client →
  heap w !! client = Some c →
  closed (Send c) = false → length (buf (Send c)) = sendCap →
  (Hub_run_broadcast message;; Hub_run_unregister client) w =
    Done tt (setTrace (λ t, t ++
      [Log Info [("device_id", uuid_String (DeviceID c))] "Client unregistered"])
      (setClients (delete (DeviceID c))
         (setHeap (insert client (withSend c (closedChan (Send c)))) w))).
Proof.
  intros Hparse Hreg Hc Hopen Hlen.
  rewrite (bind_Done _ _ _ _ _
             (Hub_run_broadcast_full message _ client c w Hparse Hreg Hc Hopen Hlen)).
  apply (Hub_run_unregister_absent client (withSend c (closedChan (Send c)))).
  - simpl. apply lookup_insert_eq.
  - simpl. apply lookup_delete_eq.
Qed.

(** ** Shutdown *)

Lemma closeConns_spec ps : ∀ w,
  (∀ p, p ∈ ps → is_Some (heap w !! p)) →
  ∃ w', closeConns ps w = Done tt w' ∧
    clients w' = clients w ∧ heap w' = heap w ∧
    register w' = register w ∧ unregister w' = unregister w ∧
    broadcast w' = broadcast w ∧
    trace w' = trace w ++
      omap (λ p, (λ cl, ConnClose (Conn cl)) <$> heap w !! p) ps.
Proof.
  induction ps as [| p ps IH]; intros w Hall.
  - exists w. simpl. rewrite app_nil_r. repeat split.
  - destruct (Hall p) as [cl Hcl]; [left |].
    simpl. rewrite (bind_Done _ _ _ _ _ (deref_Some _ _ _ Hcl)).
    unfold mbind at 1, M_bind, emit, modify.
    destruct (IH (setTrace (λ t, t ++ [ConnClose (Conn cl)]) w))
      as (w' & Hrun & H1 & H2 & H3 & H4 & H5 & H6).
    { intros q Hq. simpl. apply Hall. now right. }
    exists w'. split; [exact Hrun |]. rewrite Hcl. simpl.
    repeat split; auto. rewrite H6. simpl. now rewrite <- app_assoc.
Qed.

(** X12. When every registered session is allocated, [Shutdown] closes
    the transport of each session in the registry and of no other: a
    session that a reconnect has replaced in the registry is left running.
    It closes no queue and leaves the registry and the hub's three
    channels as they are. *)
Theorem Shutdown_closes_registered w :
  (∀ d p, clients w !! d = Some p → is_Some (heap w !! p)) →
  ∃ closes w', Shutdown w = Done tt w' ∧
    trace w' = trace w ++ closes ∧
    clients w' = clients w ∧ heap w' = heap w ∧
    register w' = register w ∧ unregister w' = unregister w ∧
    broadcast w' = broadcast w ∧
    ∀ e, e ∈ closes ↔
      ∃ d p cl, clients w !! d = Some p ∧ heap w !! p = Some cl ∧
        e = ConnClose (Conn cl).
Proof.
  clear uuid_Parse uuid_String.
  intros Hall. unfold Shutdown. unfold mbind, M_bind, gets.
  destruct (closeConns_spec ((map_to_list (clients w)).*2) w)
    as (w' & Hrun & H1 & H2 & H3 & H4 & H5 & H6).
  { intros p Hp. apply list_elem_of_fmap in Hp as [[d q] [-> Hin]].
    apply elem_of_map_to_list in Hin. eapply Hall. exact Hin. }
  eexists. exists w'. split; [exact Hrun |]. split; [exact H6 |].
  repeat split; auto.
  - intros He. apply list_elem_of_omap in He as (p & Hp & Hsome).
    apply list_elem_of_fmap in Hp as [[d q] [-> Hin]].
    apply elem_of_map_to_list in Hin. simpl in Hsome.
    destruct (heap w !! q) as [cl |] eqn:Hq; [| discriminate].
    injection Hsome as <-. exists d, q, cl. auto.
  - intros (d & p & cl & Hreg & Hp & ->).
    apply list_elem_of_omap. exists p. split.
    + apply list_elem_of_fmap. exists (d, p). split; [reflexivity |].
      now apply elem_of_map_to_list.
    + now rewrite Hp.
Qed.

(** ** The invariant of the system *)

Lemma final_bind {A B} (m : M A) (k : A → M B) w :
  final ((m ≫= k) w) =
    match m w with
    | Done a w' => final (k a w')
    | Panic _ w' => w'
    end.
Proof. unfold mbind, M_bind. now destruct (m w). Qed.

Lemma sameSessions_refl h : sameSessions h h.
Proof. intros p. destruct (h !! p); [repeat split; auto | exact I]. Qed.

Lemma sameSessions_trans h1 h2 h3 :
  sameSessions h1 h2 → sameSessions h2 h3 → sameSessions h1 h3.
Proof.
  intros H12 H23 p. specialize (H12 p). specialize (H23 p).
  destruct (h1 !! p), (h2 !! p), (h3 !! p); try done.
  destruct H12 as (? & ? & ? & ?), H23 as (? & ? & ? & ?).
  repeat split; try congruence. auto.
Qed.

Lemma sameSessions_insert (h : gmap nat Client) c a b :
  h !! c = Some a →
  DeviceID a = DeviceID b → UserID a = UserID b →
  closed (Send a) = closed (Send b) →
  ((length (buf (Send a)) ≤ sendCap)%nat → (length (buf (Send b)) ≤ sendCap)%nat) →
  sameSessions h (<[c := b]> h).
Proof.
  intros Hc Hd Hu Hcl Hlen p. destruct (decide (p = c)) as [-> | Hne].
  - rewrite lookup_insert_eq, Hc. auto.
  - rewrite lookup_insert_ne by done. destruct (h !! p); [repeat split; auto | exact I].
Qed.

Lemma quiet_refl w : quiet w w.
Proof. repeat split. apply sameSessions_refl. Qed.

Lemma quiet_trans w1 w2 w3 : quiet w1 w2 → quiet w2 w3 → quiet w1 w3.
Proof.
  intros ((Hc1 & Hr1 & Hs1) & Hu1) ((Hc2 & Hr2 & Hs2) & Hu2).
  repeat split; try congruence. eapply sameSessions_trans; eauto.
Qed.

Lemma quiet_bind {A B} (m : M A) (k : A → M B) w :
  quiet w (final (m w)) →
  (∀ a w', m w = Done a w' → quiet w' (final (k a w'))) →
  quiet w (final ((m ≫= k) w)).
Proof.
  intros Hm Hk. rewrite final_bind. destruct (m w) as [a w' | e w'] eqn:Hrun.
  - eapply quiet_trans; [exact Hm | now apply Hk].
  - exact Hm.
Qed.

Lemma quiet_sendError c e w : quiet w (final (sendError c e w)).
Proof.
  clear. unfold sendError. unfoldM.
  destruct (heap w !! c) as [cl |] eqn:Hc; simpl; [| apply quiet_refl].
  unfold trySend. destruct (closed (Send cl)) eqn:Hcl; simpl;
    [apply quiet_refl |].
  case_decide; simpl; repeat split.
  - apply (sameSessions_insert _ _ cl); auto; simpl.
    intros _. rewrite length_app. simpl. lia.
  - apply sameSessions_refl.
Qed.

Lemma quiet_toBroadcast m w : quiet w (final (toBroadcast m w)).
Proof. repeat split. apply sameSessions_refl. Qed.

Lemma quiet_handleMessage c msg w : quiet w (final (handleMessage c msg w)).
Proof.
  unfold handleMessage, handleOffer, handleAnswer, handleICECandidate.
  repeat case_decide; try apply quiet_sendError.
  - destruct (uuid_Parse _); [| apply quiet_sendError].
    unfold mbind at 1, M_bind, gets.
    destruct (GetByID _ _) as [[d |] [err |]]; try apply quiet_sendError.
    unfold mbind, M_bind, deref.
    destruct (heap w !! c); simpl; [| apply quiet_refl].
    case_decide; [apply quiet_sendError | apply quiet_toBroadcast].
  - unfold mbind, M_bind, deref.
    destruct (heap w !! c); simpl; [apply quiet_toBroadcast | apply quiet_refl].
  - unfold mbind, M_bind, deref.
    destruct (heap w !! c); simpl; [apply quiet_toBroadcast | apply quiet_refl].
  - repeat split. apply sameSessions_refl.
Qed.

Lemma quiet_touch c t w :
  quiet w (final ((cl ← deref c; store c (withLastSeen cl t)) w)).
Proof.
  clear. unfoldM. destruct (heap w !! c) as [cl |] eqn:Hc; simpl;
    [| apply quiet_refl].
  repeat split. apply (sameSessions_insert _ _ cl); auto.
Qed.

Lemma quiet_readLoop c reads : ∀ w, quiet w (final (readLoop c reads w)).
Proof.
  induction reads as [| r reads IH]; intros w; [apply quiet_refl |].
  simpl. destruct (readResult r) as [msg | err].
  - assert (Hassoc : ∀ w,
      (cl ← deref c; store c (withLastSeen cl (readAt r));;
         handleMessage c msg;; readLoop c reads) w =
      ((cl ← deref c; store c (withLastSeen cl (readAt r))) ≫=
         (λ _, handleMessage c msg;; readLoop c reads)) w).
    { intros w0. unfold mbind, M_bind, deref. now destruct (heap w0 !! c). }
    rewrite Hassoc. apply quiet_bind; [apply quiet_touch |].
    intros _ w1 _. apply quiet_bind; [apply quiet_handleMessage |].
    intros _ w2 _. apply IH.
  - unfoldM. destruct (IsUnexpectedCloseError _ _); simpl; repeat split;
      apply sameSessions_refl.
Qed.

Lemma wellFormed_local w w' :
  wellFormed w → sessionLocal w w' →
  (∀ p, p ∈ unregister w' →
     p ∈ unregister w ∨ (is_Some (heap w !! p) ∧ p ∉ register w)) →
  wellFormed w'.
Proof.
  clear. intros (Hro & Hnd & Hpend & Hun & Hbound) (Hc & Hr & Hs) Hu.
  assert (Halloc : ∀ p, is_Some (heap w !! p) → is_Some (heap w' !! p)).
  { intros p [a Ha]. specialize (Hs p). rewrite Ha in Hs.
    destruct (heap w' !! p); [eauto | contradiction]. }
  split; [| split; [| split; [| split]]].
  - intros d p Hd. rewrite Hc in Hd.
    destruct (Hro d p Hd) as (a & Ha & Hdev & Hopen).
    specialize (Hs p). rewrite Ha in Hs.
    destruct (heap w' !! p) as [b |]; [| contradiction].
    destruct Hs as (Hd' & _ & Hcl & _). exists b. repeat split; congruence.
  - now rewrite Hr.
  - intros p Hp. rewrite Hr in Hp. destruct (Hpend p Hp) as ((a & Ha & Hopen) & Hnu & Hnr).
    split; [| split].
    + specialize (Hs p). rewrite Ha in Hs.
      destruct (heap w' !! p) as [b |]; [| contradiction].
      destruct Hs as (_ & _ & Hcl & _). exists b. split; congruence.
    + intros Hin. destruct (Hu p Hin) as [H | [_ H]]; contradiction.
    + intros d. rewrite Hc. apply Hnr.
  - intros p Hp. destruct (Hu p Hp) as [H | [H _]]; apply Halloc; auto.
  - intros p b Hb. specialize (Hs p). rewrite Hb in Hs.
    destruct (heap w !! p) as [a |] eqn:Ha; [| contradiction].
    destruct Hs as (_ & _ & _ & Hlen). apply Hlen. eapply Hbound; eauto.
Qed.

Lemma wellFormed_quiet w w' : wellFormed w → quiet w w' → wellFormed w'.
Proof.
  clear. intros Hwf [Hl Hu]. apply (wellFormed_local w w' Hwf Hl).
  intros p Hp. left. congruence.
Qed.

Lemma wellFormed_start repo : wellFormed (NewServer repo).
Proof.
  clear. split; [| split; [| split; [| split]]]; simpl.
  - intros d p H. simpl in H. now rewrite lookup_empty in H.
  - constructor.
  - intros p H. now apply not_elem_of_nil in H.
  - intros p H. now apply not_elem_of_nil in H.
  - intros p c H. simpl in H. now rewrite lookup_empty in H.
Qed.

(** *** The sessions' pumps and the shutdown *)

Lemma wellFormed_read c start reads w :
  wellFormed w → c ∉ register w →
  wellFormed (final (readPump c start reads w)).
Proof.
  intros Hwf Hnr. unfold readPump. rewrite final_bind. unfold deref.
  destruct (heap w !! c) as [cl |] eqn:Hc; [| exact Hwf].
  rewrite final_bind. unfold emit at 1, modify.
  set (w0 := setTrace _ w).
  assert (Hq0 : quiet w w0) by (repeat split; apply sameSessions_refl).
  pose proof (quiet_readLoop c reads w0) as Hq1.
  assert (Hdeferred : ∀ w1, quiet w w1 →
            wellFormed (setTrace (λ t, t ++ [ConnClose (Conn cl)])
                          (setUnregister (λ q, q ++ [c]) w1))).
  { intros w1 ((Hcl & Hr & Hs) & Hu).
    apply (wellFormed_local w); [exact Hwf | repeat split; auto |].
    intros p Hp. simpl in Hp. rewrite Hu in Hp.
    apply elem_of_app in Hp as [Hp | Hp]; [now left |].
    apply list_elem_of_singleton in Hp as ->. right. split; [eauto | exact Hnr]. }
  simpl. destruct (readLoop c reads w0) as [[|] w1 | e w1] eqn:Hrun; simpl in Hq1.
  - simpl. apply (wellFormed_quiet w); [exact Hwf |].
    exact (quiet_trans _ _ _ Hq0 Hq1).
  - apply Hdeferred. exact (quiet_trans _ _ _ Hq0 Hq1).
  - apply Hdeferred. exact (quiet_trans _ _ _ Hq0 Hq1).
Qed.

Lemma wellFormed_write c steps w :
  wellFormed w → wellFormed (final (writePump c steps w)).
Proof.
  clear. intros Hwf. unfold writePump. rewrite final_bind. unfold deref.
  destruct (heap w !! c) as [cl |] eqn:Hc; [| exact Hwf].
  destruct (writeLoop_spec c steps cl w Hc)
    as (st & ops & k & w' & Hrun & _ & Hh & Hq & Hcl & Hr & Hu & _).
  rewrite final_bind, Hrun.
  assert (Hw' : wellFormed w').
  { apply (wellFormed_quiet w); [exact Hwf |].
    repeat split; auto. intros p. destruct (decide (p = c)) as [-> | Hne].
    - rewrite Hc, Hh. simpl. repeat split; auto.
      rewrite length_drop. lia.
    - rewrite (Hq p Hne).
      destruct (heap w !! p); [repeat split; auto | exact I]. }
  now destruct st.
Qed.

Lemma wellFormed_shutdown w : wellFormed w → wellFormed (final (Shutdown w)).
Proof.
  clear. intros Hwf. unfold Shutdown. unfold mbind, M_bind, gets.
  destruct (closeConns_spec ((map_to_list (clients w)).*2) w)
    as (w' & Hrun & Hcl & Hh & Hr & Hu & _).
  { intros p Hp. apply list_elem_of_fmap in Hp as [[d q] [-> Hin]].
    apply elem_of_map_to_list in Hin. destruct Hwf as (Hro & _).
    destruct (Hro d q Hin) as (c & Hc & _). simpl. eauto. }
  rewrite Hrun. simpl. apply (wellFormed_quiet w); [exact Hwf |].
  repeat split; auto. rewrite Hh. apply sameSessions_refl.
Qed.

(** *** The handshake *)

Lemma quiet_reject conn e w : quiet w (final (reject conn e w)).
Proof. clear. rewrite reject_spec. repeat split. apply sameSessions_refl. Qed.

Lemma wellFormed_connect r w :
  wellFormed w → wellFormed (final (handleWebSocket r w)).
Proof.
  intros Hwf. unfold handleWebSocket.
  destruct (upgrade r) as [conn | err].
  2: { apply (wellFormed_quiet w); [exact Hwf |].
       repeat split. apply sameSessions_refl. }
  case_decide; [exact (wellFormed_quiet _ _ Hwf (quiet_reject _ _ _)) |].
  destruct (uuid_Parse (device_id r)) as [deviceID |];
    [| exact (wellFormed_quiet _ _ Hwf (quiet_reject _ _ _))].
  unfold mbind at 1, M_bind, gets.
  destruct (GetByToken _ _) as [[device |] [err |]];
    try exact (wellFormed_quiet _ _ Hwf (quiet_reject _ _ _)).
  case_decide; [exact (wellFormed_quiet _ _ Hwf (quiet_reject _ _ _)) |].
  unfoldM. simpl.
  destruct Hwf as (Hro & Hnd & Hpend & Hun & Hbound).
  set (p := fresh (dom (heap w))).
  assert (Hp : heap w !! p = None) by (apply not_elem_of_dom, is_fresh).
  assert (Hne : ∀ q, is_Some (heap w !! q) → q ≠ p).
  { intros q [a Ha] ->. congruence. }
  split; [| split; [| split; [| split]]]; simpl.
  - intros d q Hd. simpl in Hd. destruct (Hro d q Hd) as (a & Ha & Hda & Hopen).
    exists a. simpl. rewrite lookup_insert_ne; [auto |].
    intros <-. congruence.
  - apply NoDup_app. split; [exact Hnd |]. split; [| apply NoDup_singleton].
    intros q Hq Hq'. apply list_elem_of_singleton in Hq' as ->.
    destruct (Hpend p Hq) as ((a & Ha & _) & _). congruence.
  - intros q Hq. apply elem_of_app in Hq as [Hq | Hq].
    + destruct (Hpend q Hq) as ((a & Ha & Hopen) & Hnu & Hnr).
      split; [| auto]. exists a. rewrite lookup_insert_ne; [auto |].
      intros <-. congruence.
    + apply list_elem_of_singleton in Hq as ->. split; [| split].
      * eexists. rewrite lookup_insert_eq. split; reflexivity.
      * intros Hin. apply Hun in Hin. destruct Hin as [a Ha]. congruence.
      * intros d Hd. destruct (Hro d p Hd) as (a & Ha & _). congruence.
  - intros q Hq. apply Hun in Hq. rewrite lookup_insert_ne; [exact Hq |].
    intros <-. destruct Hq as [a Ha]. congruence.
  - intros q b Hb. destruct (decide (q = p)) as [-> | Hqp].
    + rewrite lookup_insert_eq in Hb. injection Hb as <-. simpl.
      unfold sendCap. lia.
    + rewrite lookup_insert_ne in Hb by done. eapply Hbound; eauto.
Qed.

(** *** The hub *)

Lemma wellFormed_hub_register p rest w :
  wellFormed w → register w = p :: rest →
  wellFormed (final (Hub_run_register p (setRegister (λ _, rest) w))).
Proof.
  intros Hwf Hq. pose proof Hwf as (Hro & Hnd & Hpend & Hun & Hbound).
  rewrite Hq in Hnd. apply NoDup_cons in Hnd as [Hnin Hnd].
  destruct (Hpend p) as ((c & Hc & Hopen) & Hnu & Hnr); [rewrite Hq; left |].
  set (w0 := setRegister (λ _, rest) w).
  assert (Hro' : registeredOpen (final (Hub_run_register p w0))).
  { apply (registeredOpen_register p c); auto. }
  rewrite (Hub_run_register_spec p c w0 Hc) in *. simpl in Hro'. simpl.
  split; [exact Hro' |]. split; [exact Hnd |].
  split; [| split; [exact Hun | exact Hbound]].
  intros q Hin. simpl in Hin.
  destruct (Hpend q) as (Ha & Hnuq & Hnrq); [rewrite Hq; now right |].
  split; [exact Ha |]. split; [exact Hnuq |].
  intros d Hd. simpl in Hd. destruct (decide (DeviceID c = d)) as [<- | Hne].
  - rewrite lookup_insert_eq in Hd. injection Hd as <-. contradiction.
  - rewrite lookup_insert_ne in Hd by done. now apply (Hnrq d).
Qed.

(** What deregistration can change. *)
Lemma Hub_run_unregister_effect p w :
  register (final (Hub_run_unregister p w)) = register w ∧
  unregister (final (Hub_run_unregister p w)) = unregister w ∧
  (∀ d q, clients (final (Hub_run_unregister p w)) !! d = Some q →
     clients w !! d = Some q) ∧
  (∀ q, q ≠ p → heap (final (Hub_run_unregister p w)) !! q = heap w !! q) ∧
  (∀ c, heap w !! p = Some c →
     ∃ c', heap (final (Hub_run_unregister p w)) !! p = Some c' ∧
       buf (Send c') = buf (Send c)).
Proof.
  unfold Hub_run_unregister, closeSend, closeChan. unfoldM.
  destruct (heap w !! p) as [c |] eqn:Hc; simpl.
  2: { repeat split; auto. intros c Hc'. discriminate. }
  destruct (clients w !! DeviceID c) as [other |] eqn:Hreg; simpl.
  2: { repeat split; auto. intros c' Hc'. injection Hc' as <-. eauto. }
  rewrite Hc.
  assert (Hdel : ∀ d q, delete (DeviceID c) (clients w) !! d = Some q →
                        clients w !! d = Some q).
  { intros d q Hd. apply lookup_delete_Some in Hd. tauto. }
  destruct (closed (Send c)); simpl.
  - repeat split; auto. intros c' Hc'. injection Hc' as <-. eauto.
  - repeat split; auto.
    + intros q Hq. now rewrite lookup_insert_ne.
    + intros c' Hc'. injection Hc' as <-. rewrite lookup_insert_eq. eauto.
Qed.

Lemma wellFormed_hub_unregister p rest w :
  wellFormed w → unregister w = p :: rest →
  wellFormed (final (Hub_run_unregister p (setUnregister (λ _, rest) w))).
Proof.
  intros Hwf Hq. pose proof Hwf as (Hro & Hnd & Hpend & Hun & Hbound).
  set (w0 := setUnregister (λ _, rest) w).
  assert (Hro0 : registeredOpen w0) by exact Hro.
  pose proof (registeredOpen_unregister p w0 Hro0) as Hro'.
  destruct (Hub_run_unregister_effect p w0) as (Hr & Hu & Hsub & Hother & Hself).
  set (w' := final (Hub_run_unregister p w0)) in *.
  assert (Hp : p ∈ unregister w) by (rewrite Hq; left).
  assert (Hpr : p ∉ register w).
  { intros Hin. destruct (Hpend p Hin) as (_ & Hnu & _). contradiction. }
  assert (Halloc : ∀ q, is_Some (heap w !! q) → is_Some (heap w' !! q)).
  { intros q [a Ha]. destruct (decide (q = p)) as [-> | Hne].
    - destruct (Hself a Ha) as (c' & Hc' & _). eauto.
    - rewrite (Hother q Hne). simpl. eauto. }
  split; [exact Hro' |]. split; [now rewrite Hr |].
  split; [| split].
  - intros q Hin. rewrite Hr in Hin. simpl in Hin.
    destruct (Hpend q Hin) as (Ha & Hnuq & Hnrq).
    assert (Hne : q ≠ p) by (intros ->; contradiction).
    split; [| split].
    + rewrite (Hother q Hne). exact Ha.
    + rewrite Hu. simpl. intros Hin'. apply Hnuq. rewrite Hq. now right.
    + intros d Hd. apply Hsub in Hd. now apply (Hnrq d).
  - intros q Hin. rewrite Hu in Hin. simpl in Hin. apply Halloc, Hun.
    rewrite Hq. now right.
  - intros q b Hb. destruct (decide (q = p)) as [-> | Hne].
    + destruct (Hun p Hp) as [a Ha]. destruct (Hself a Ha) as (c' & Hc' & Hbuf).
      rewrite Hb in Hc'. injection Hc' as <-. rewrite Hbuf. eapply Hbound; eauto.
    + rewrite (Hother q Hne) in Hb. eapply Hbound; eauto.
Qed.

(** What a dispatch can change, in a world whose registered sessions are
    allocated with open queues. *)
Lemma Hub_run_broadcast_effect m w :
  registeredOpen w →
  (∃ w', Hub_run_broadcast m w = Done tt w') ∧
  register (final (Hub_run_broadcast m w)) = register w ∧
  unregister (final (Hub_run_broadcast m w)) = unregister w ∧
  (∀ d q, clients (final (Hub_run_broadcast m w)) !! d = Some q →
     clients w !! d = Some q) ∧
  (∀ q, (∀ d, clients w !! d ≠ Some q) →
     heap (final (Hub_run_broadcast m w)) !! q = heap w !! q) ∧
  (∀ q b, heap (final (Hub_run_broadcast m w)) !! q = Some b →
     ∃ a, heap w !! q = Some a ∧
       ((length (buf (Send a)) ≤ sendCap)%nat →
        (length (buf (Send b)) ≤ sendCap)%nat)) ∧
  (∀ q, is_Some (heap w !! q) →
     is_Some (heap (final (Hub_run_broadcast m w)) !! q)).
Proof.
  clear uuid_String.
  intros Hro. unfold Hub_run_broadcast, closeSend, closeChan.
  destruct (uuid_Parse _) as [toDeviceID |]; [| repeat split; eauto].
  unfoldM.
  destruct (clients w !! toDeviceID) as [client |] eqn:Hreg; simpl;
    [| repeat split; eauto].
  destruct (Hro _ _ Hreg) as (c & Hc & Hdev & Hopen). rewrite Hc.
  assert (Hdel : ∀ d q, delete toDeviceID (clients w) !! d = Some q →
                        clients w !! d = Some q).
  { intros d q Hd. apply lookup_delete_Some in Hd. tauto. }
  assert (Hnc : ∀ q, (∀ d, clients w !! d ≠ Some q) → q ≠ client).
  { intros q Hq ->. now apply (Hq toDeviceID). }
  unfold trySend. rewrite Hopen. case_decide as Hlen; simpl.
  - split; [eauto |]. split; [reflexivity |]. split; [reflexivity |].
    split; [auto |]. split; [| split].
    + intros q Hq. apply lookup_insert_ne. intros <-. now apply (Hnc client).
    + intros q b Hb. destruct (decide (q = client)) as [-> | Hne].
      * rewrite lookup_insert_eq in Hb. injection Hb as <-. exists c.
        split; [exact Hc |]. intros _. simpl. rewrite length_app. simpl. lia.
      * rewrite lookup_insert_ne in Hb by done. eauto.
    + intros q Hq. destruct (decide (q = client)) as [-> | Hne].
      * rewrite lookup_insert_eq. eauto.
      * now rewrite lookup_insert_ne.
  - rewrite Hc, Hopen. simpl.
    split; [eauto |]. split; [reflexivity |]. split; [reflexivity |].
    split; [exact Hdel |]. split; [| split].
    + intros q Hq. apply lookup_insert_ne. intros <-. now apply (Hnc client).
    + intros q b Hb. destruct (decide (q = client)) as [-> | Hne].
      * rewrite lookup_insert_eq in Hb. injection Hb as <-. exists c.
        split; [exact Hc |]. auto.
      * rewrite lookup_insert_ne in Hb by done. eauto.
    + intros q Hq. destruct (decide (q = client)) as [-> | Hne].
      * rewrite lookup_insert_eq. eauto.
      * now rewrite lookup_insert_ne.
Qed.

Lemma wellFormed_hub_broadcast m rest w :
  wellFormed w → broadcast w = m :: rest →
  wellFormed (final (Hub_run_broadcast m (setBroadcast (λ _, rest) w))).
Proof.
  intros Hwf Hq. pose proof Hwf as (Hro & Hnd & Hpend & Hun & Hbound).
  set (w0 := setBroadcast (λ _, rest) w).
  assert (Hro0 : registeredOpen w0) by exact Hro.
  pose proof (registeredOpen_broadcast m w0 Hro0) as Hro'.
  destruct (Hub_run_broadcast_effect m w0 Hro0)
    as (_ & Hr & Hu & Hsub & Hother & Hlen & Halloc).
  set (w' := final (Hub_run_broadcast m w0)) in *.
  split; [exact Hro' |]. split; [now rewrite Hr |].
  split; [| split].
  - intros q Hin. rewrite Hr in Hin. simpl in Hin.
    destruct (Hpend q Hin) as (Ha & Hnuq & Hnrq).
    split; [| split].
    + rewrite (Hother q Hnrq). exact Ha.
    + now rewrite Hu.
    + intros d Hd. apply Hsub in Hd. now apply (Hnrq d).
  - intros q Hin. rewrite Hu in Hin. apply Halloc, Hun. exact Hin.
  - intros q b Hb. destruct (Hlen q b Hb) as (a & Ha & Himp).
    apply Himp. eapply Hbound; eauto.
Qed.

Lemma wellFormed_hub sel w :
  wellFormed w → wellFormed (final (Hub_run_iter sel w)).
Proof.
  intros Hwf. unfold Hub_run_iter. destruct sel.
  - unfold mbind at 1, M_bind, gets.
    destruct (register w) as [| p rest] eqn:Hq; [exact Hwf |].
    unfold mbind at 1, M_bind, modify.
    now apply wellFormed_hub_register.
  - unfold mbind at 1, M_bind, gets.
    destruct (unregister w) as [| p rest] eqn:Hq; [exact Hwf |].
    unfold mbind at 1, M_bind, modify.
    now apply wellFormed_hub_unregister.
  - unfold mbind at 1, M_bind, gets.
    destruct (broadcast w) as [| m rest] eqn:Hq; [exact Hwf |].
    unfold mbind at 1, M_bind, modify.
    now apply wellFormed_hub_broadcast.
Qed.

(** X13. The invariant of the running system. In every world reached
    from [NewServer] by handshakes, hub iterations, runs of the sessions'
    read and write pumps and shutdowns, in any order: every registered
    session is allocated, is registered under its own device identifier
    and has an open queue; the sessions waiting on the register channel are
    distinct, have open queues, and are neither registered nor asked to be
    deregistered; no session's queue holds more than 256 messages; and a
    dispatch, whatever the envelope, ends normally: the hub never sends on
    a closed channel. *)
Theorem reachable_wellFormed repo w :
  reachable repo w →
  wellFormed w ∧ ∀ message, ∃ w', Hub_run_broadcast message w = Done tt w'.
Proof.
  intros Hreach.
  assert (Hwf : wellFormed w).
  { induction Hreach as [| w w' _ IH Hstep].
    - apply wellFormed_start.
    - destruct Hstep.
      + now apply wellFormed_connect.
      + now apply wellFormed_hub.
      + now apply wellFormed_read.
      + now apply wellFormed_write.
      + now apply wellFormed_shutdown. }
  split; [exact Hwf |]. intros message. destruct Hwf as (Hro & _).
  now destruct (Hub_run_broadcast_effect message w Hro) as (Hdone & _).
Qed.

(** ** The hub does no transport I/O *)

Lemma Hub_run_iter_trace sel w :
  ∃ logs, trace (final (Hub_run_iter sel w)) = trace w ++ logs ∧
    Forall isLog logs ∧
    deviceRepo (final (Hub_run_iter sel w)) = deviceRepo w.
Proof.
  assert (H0 : ∀ r : DeviceRepo, r = deviceRepo w →
            ∃ logs, trace w = trace w ++ logs ∧ Forall isLog logs ∧
              r = deviceRepo w).
  { intros r Hr. exists []. rewrite app_nil_r. auto. }
  assert (H1 : ∀ (r : DeviceRepo) lvl f m, r = deviceRepo w →
            ∃ logs, trace w ++ [Log lvl f m] = trace w ++ logs ∧
              Forall isLog logs ∧ r = deviceRepo w).
  { intros r lvl f m Hr. exists [Log lvl f m]. repeat split; auto.
    repeat constructor. }
  unfold Hub_run_iter, Hub_run_register, Hub_run_unregister, Hub_run_broadcast,
    closeSend, closeChan, trySend.
  unfoldM. destruct sel.
  - destruct (register w) as [| p rest]; simpl; [now apply H0 |].
    destruct (heap w !! p); simpl; [now apply H1 | now apply H0].
  - destruct (unregister w) as [| p rest]; simpl; [now apply H0 |].
    destruct (heap w !! p) as [c |] eqn:Hc; simpl; [| now apply H0].
    destruct (clients w !! DeviceID c); simpl; [| now apply H1].
    rewrite Hc. destruct (closed (Send c)); simpl;
      [now apply H0 | now apply H1].
  - destruct (broadcast w) as [| m rest]; simpl; [now apply H0 |].
    destruct (uuid_Parse _); simpl; [| now apply H0].
    destruct (clients w !! _); simpl; [| now apply H1].
    destruct (heap w !! _) as [c |] eqn:Hc; simpl; [| now apply H0].
    destruct (closed (Send c)) eqn:Hcl; simpl; [now apply H0 |].
    case_decide; simpl; [now apply H0 |].
    rewrite Hc, Hcl. simpl. now apply H0.
Qed.

(** The hub's loop never reads the device repository: with another
    repository an iteration does the same. *)
Lemma Hub_run_iter_repo sel repo w :
  Hub_run_iter sel (setDeviceRepo repo w) =
    mapWorld (setDeviceRepo repo) (Hub_run_iter sel w).
Proof.
  unfold Hub_run_iter, Hub_run_register, Hub_run_unregister, Hub_run_broadcast,
    closeSend, closeChan, trySend.
  unfoldM. destruct sel; simpl.
  - destruct (register w) as [| p rest]; simpl; [reflexivity |].
    destruct (heap w !! p); reflexivity.
  - destruct (unregister w) as [| p rest]; simpl; [reflexivity |].
    destruct (heap w !! p) as [c |] eqn:Hc; simpl; [| reflexivity].
    destruct (clients w !! DeviceID c); simpl; [| reflexivity].
    rewrite Hc. destruct (closed (Send c)); reflexivity.
  - destruct (broadcast w) as [| m rest]; simpl; [reflexivity |].
    destruct (uuid_Parse _); simpl; [| reflexivity].
    destruct (clients w !! _); simpl; [| reflexivity].
    destruct (heap w !! _) as [c |] eqn:Hc; simpl; [| reflexivity].
    destruct (closed (Send c)) eqn:Hcl; simpl; [reflexivity |].
    case_decide; simpl; [reflexivity |].
    rewrite Hc, Hcl. reflexivity.
Qed.

(** X14. Whatever the hub processes and in whatever order, all it adds
    to the trace are log lines: it writes to no transport and closes none
    (a session whose queue it closes has its transport closed later, by
    that session's pumps). It never changes the device repository, and it
    never queries it: with any other repository in its place the hub ends
    the same way in the same world, that repository apart. *)
Theorem hub_adds_only_log_lines sels : ∀ w,
  (∃ logs, trace (final (Hub_run sels w)) = trace w ++ logs ∧
     Forall isLog logs) ∧
  deviceRepo (final (Hub_run sels w)) = deviceRepo w ∧
  ∀ repo, Hub_run sels (setDeviceRepo repo w) =
    mapWorld (setDeviceRepo repo) (Hub_run sels w).
Proof.
  induction sels as [| sel sels IH]; intros w.
  - split; [| split]; [| reflexivity ..].
    exists []. simpl. rewrite app_nil_r. auto.
  - simpl. rewrite final_bind.
    destruct (Hub_run_iter_trace sel w) as (l1 & Ht1 & Hl1 & Hr1).
    pose proof (Hub_run_iter_repo sel) as Hrepo.
    unfold mbind, M_bind.
    destruct (Hub_run_iter sel w) as [[] w1 | e w1] eqn:Hiter;
      simpl in Ht1, Hr1.
    + destruct (IH w1) as ((l2 & Ht2 & Hl2) & Hr2 & Hi2).
      split; [| split].
      * exists (l1 ++ l2). rewrite Ht2, Ht1, app_assoc.
        split; [reflexivity | now apply Forall_app].
      * now rewrite Hr2.
      * intros repo. rewrite Hrepo, Hiter. simpl. apply Hi2.
    + split; [| split]; [eauto | assumption |].
      intros repo. now rewrite Hrepo, Hiter.
Qed.

(** ** What inbound frames can do *)

Lemma inboundEffect_refl c w : inboundEffect c w w.
Proof.
  clear. repeat split; auto.
  - exists []. now rewrite app_nil_r.
  - exists []. now rewrite app_nil_r.
  - destruct (heap w !! c); [| exact I]. repeat split.
    exists []. now rewrite app_nil_r.
Qed.

Lemma inboundEffect_trans c w1 w2 w3 :
  inboundEffect c w1 w2 → inboundEffect c w2 w3 → inboundEffect c w1 w3.
Proof.
  clear.
  intros (Hc1 & Hr1 & Hu1 & Hd1 & Hh1 & (l1 & Ht1 & Hl1) & (s1 & Hb1) & Hs1)
         (Hc2 & Hr2 & Hu2 & Hd2 & Hh2 & (l2 & Ht2 & Hl2) & (s2 & Hb2) & Hs2).
  split; [congruence |]. split; [congruence |]. split; [congruence |].
  split; [congruence |]. split; [| split; [| split]].
  - intros q Hq. rewrite (Hh2 q Hq). now apply Hh1.
  - exists (l1 ++ l2). rewrite Ht2, Ht1, app_assoc. split; [reflexivity |].
    now apply Forall_app.
  - exists (s1 ++ s2). now rewrite Hb2, Hb1, app_assoc.
  - destruct (heap w1 !! c) as [a |], (heap w2 !! c) as [b |],
      (heap w3 !! c) as [d |]; try done.
    destruct Hs1 as (? & ? & ? & ? & ? & e1 & He1 & Hf1).
    destruct Hs2 as (? & ? & ? & ? & ? & e2 & He2 & Hf2).
    repeat split; try congruence.
    exists (e1 ++ e2). rewrite He2, He1, app_assoc. split; [reflexivity |].
    now apply Forall_app.
Qed.

Lemma inboundEffect_bind {A B} c (m : M A) (k : A → M B) w :
  inboundEffect c w (final (m w)) →
  (∀ a w', m w = Done a w' → inboundEffect c w' (final (k a w'))) →
  inboundEffect c w (final ((m ≫= k) w)).
Proof.
  intros Hm Hk. rewrite final_bind. destruct (m w) as [a w' | e w'] eqn:Hrun.
  - eapply inboundEffect_trans; [exact Hm | now apply Hk].
  - exact Hm.
Qed.

Lemma inboundEffect_log c lvl f m w :
  inboundEffect c w (final (emit (Log lvl f m) w)).
Proof.
  clear. repeat split; auto.
  - exists [Log lvl f m]. split; [reflexivity | repeat constructor].
  - exists []. simpl. now rewrite app_nil_r.
  - simpl. destruct (heap w !! c); [| exact I]. repeat split.
    exists []. now rewrite app_nil_r.
Qed.

Lemma inboundEffect_sendError c e w :
  inboundEffect c w (final (sendError c e w)).
Proof.
  clear. unfold sendError. unfoldM.
  destruct (heap w !! c) as [cl |] eqn:Hc; simpl; [| apply inboundEffect_refl].
  unfold trySend. destruct (closed (Send cl)) eqn:Hcl; simpl;
    [apply inboundEffect_refl |].
  case_decide; simpl.
  - repeat split; auto; simpl.
    + intros q Hq. now apply lookup_insert_ne.
    + exists []. now rewrite app_nil_r.
    + exists []. now rewrite app_nil_r.
    + rewrite Hc, lookup_insert_eq. simpl. repeat split.
      exists [errorMessage e]. split; [reflexivity | repeat constructor].
  - apply (inboundEffect_log c Warn [] "Failed to send error message" w).
Qed.

Lemma inboundEffect_toBroadcast c m w :
  inboundEffect c w (final (toBroadcast m w)).
Proof.
  clear. repeat split; auto; simpl.
  - exists []. now rewrite app_nil_r.
  - now exists [m].
  - destruct (heap w !! c); [| exact I]. repeat split.
    exists []. now rewrite app_nil_r.
Qed.

Lemma inboundEffect_handleMessage c msg w :
  inboundEffect c w (final (handleMessage c msg w)).
Proof.
  unfold handleMessage, handleOffer, handleAnswer, handleICECandidate.
  repeat case_decide; try apply inboundEffect_sendError.
  - destruct (uuid_Parse _); [| apply inboundEffect_sendError].
    unfold mbind at 1, M_bind, gets.
    destruct (GetByID _ _) as [[d |] [err |]]; try apply inboundEffect_sendError.
    unfold mbind, M_bind, deref.
    destruct (heap w !! c); simpl; [| apply inboundEffect_refl].
    case_decide; [apply inboundEffect_sendError | apply inboundEffect_toBroadcast].
  - unfold mbind, M_bind, deref.
    destruct (heap w !! c); simpl;
      [apply inboundEffect_toBroadcast | apply inboundEffect_refl].
  - unfold mbind, M_bind, deref.
    destruct (heap w !! c); simpl;
      [apply inboundEffect_toBroadcast | apply inboundEffect_refl].
  - apply inboundEffect_log.
Qed.

Lemma inboundEffect_touch c t w :
  inboundEffect c w (final ((cl ← deref c; store c (withLastSeen cl t)) w)).
Proof.
  clear. unfoldM. destruct (heap w !! c) as [cl |] eqn:Hc; simpl;
    [| apply inboundEffect_refl].
  repeat split; auto; simpl.
  - intros q Hq. now apply lookup_insert_ne.
  - exists []. now rewrite app_nil_r.
  - exists []. now rewrite app_nil_r.
  - rewrite Hc, lookup_insert_eq. simpl. repeat split.
    exists []. now rewrite app_nil_r.
Qed.

Lemma inboundEffect_readLoop c reads : ∀ w,
  inboundEffect c w (final (readLoop c reads w)).
Proof.
  induction reads as [| r reads IH]; intros w; [apply inboundEffect_refl |].
  simpl. destruct (readResult r) as [msg | err].
  - assert (Hassoc : ∀ w,
      (cl ← deref c; store c (withLastSeen cl (readAt r));;
         handleMessage c msg;; readLoop c reads) w =
      ((cl ← deref c; store c (withLastSeen cl (readAt r))) ≫=
         (λ _, handleMessage c msg;; readLoop c reads)) w).
    { intros w0. unfold mbind, M_bind, deref. now destruct (heap w0 !! c). }
    rewrite Hassoc. apply inboundEffect_bind; [apply inboundEffect_touch |].
    intros _ w1 _. apply inboundEffect_bind; [apply inboundEffect_handleMessage |].
    intros _ w2 _. apply IH.
  - unfold mbind, M_bind, mret, M_ret.
    destruct (IsUnexpectedCloseError _ _); simpl.
    + apply (inboundEffect_log c Err _ "WebSocket error" w).
    + apply inboundEffect_refl.
Qed.

(** X21. The read pump of an allocated session, whatever frames the
    client sends and however many. It leaves the registry, the register
    channel, every other session and the device repository as they were;
    the session keeps its identity and its queue's open-or-closed state,
    the queue gaining nothing but error envelopes. Besides setting its
    read deadline it adds only log lines to the trace, so it writes to no
    transport, while it is reading. When it ends, by leaving the loop or
    by a panic of the message handling (its deferred calls run then too),
    and only then, it asks the hub once for its deregistration and closes
    its own transport. *)
Theorem readPump_effect c cl start reads w :
  heap w !! c = Some cl →
  clients (final (readPump c start reads w)) = clients w ∧
  register (final (readPump c start reads w)) = register w ∧
  deviceRepo (final (readPump c start reads w)) = deviceRepo w ∧
  (∀ q, q ≠ c → heap (final (readPump c start reads w)) !! q = heap w !! q) ∧
  (∃ cl', heap (final (readPump c start reads w)) !! c = Some cl' ∧
     ID cl' = ID cl ∧ UserID cl' = UserID cl ∧ DeviceID cl' = DeviceID cl ∧
     Conn cl' = Conn cl ∧ closed (Send cl') = closed (Send cl) ∧
     ∃ errs, buf (Send cl') = buf (Send cl) ++ errs ∧
       Forall (λ m, Type_ m = "error") errs) ∧
  ∃ logs, Forall isLog logs ∧
    match readPump c start reads w with
    | Done Returned w' | Panic _ w' =>
        unregister w' = unregister w ++ [c] ∧
        trace w' = trace w ++
          [SetReadDeadline (Conn cl) (start + 60 * Second)] ++ logs ++
          [ConnClose (Conn cl)]
    | Done Reading w' =>
        unregister w' = unregister w ∧
        trace w' = trace w ++
          [SetReadDeadline (Conn cl) (start + 60 * Second)] ++ logs
    end.
Proof.
  intros Hc. unfold readPump.
  rewrite (bind_Done _ _ _ _ _ (deref_Some _ _ _ Hc)).
  unfold readPump_deferred, unwind, mbind, M_bind, emit, modify, mret, M_ret.
  match goal with
  | |- context [readLoop c reads ?w0] =>
      pose proof (inboundEffect_readLoop c reads w0) as HE; revert HE;
      destruct (readLoop c reads w0) as [[|] w1 | e w1]
  end; simpl;
    intros (Hcl & Hr & Hu & Hd & Hh & (logs & Ht & Hlogs) & _ & Hs);
    simpl in *; rewrite Hc in Hs;
    (destruct (heap w1 !! c) as [cl' |] eqn:Hc'; [| contradiction]);
    destruct Hs as (H1 & H2 & H3 & H4 & H5 & H6).
  - do 4 (split; [auto |]). split.
    { exists cl'. split; [reflexivity |]. repeat split; auto. }
    exists logs. rewrite Ht, <- app_assoc. auto.
  - do 4 (split; [auto |]). split.
    { exists cl'. split; [reflexivity |]. repeat split; auto. }
    exists logs. rewrite Ht, Hu, <- !app_assoc. auto.
  - do 4 (split; [auto |]). split.
    { exists cl'. split; [reflexivity |]. repeat split; auto. }
    exists logs. rewrite Ht, Hu, <- !app_assoc. auto.
Qed.

(** * Properties of the device model and the device service *)

(** X15. [Validate] accepts a device exactly when its name is not empty,
    its type is desktop or mobile and its token is not empty; of several
    defects it reports the first in that order. *)
Theorem Validate_accepts_iff d :
  (Device_Validate d = None ↔
     devName d ≠ "" ∧
     (devDeviceType d = "desktop" ∨ devDeviceType d = "mobile") ∧
     devDeviceToken d ≠ "") ∧
  (devName d = "" → Device_Validate d = Some "device name is required") ∧
  (devName d ≠ "" →
   devDeviceType d ≠ "desktop" → devDeviceType d ≠ "mobile" →
   Device_Validate d = Some "invalid device type") ∧
  (devName d ≠ "" →
   devDeviceType d = "desktop" ∨ devDeviceType d = "mobile" →
   devDeviceToken d = "" →
   Device_Validate d = Some "device token is required").
Proof.
  clear. unfold Device_Validate, DeviceTypeDesktop, DeviceTypeMobile.
  destruct (decide (devName d = "")) as [Hn | Hn];
    destruct (decide (devDeviceType d = "desktop")) as [Hd | Hd];
    destruct (decide (devDeviceType d = "mobile")) as [Hm | Hm];
    destruct (decide (devDeviceToken d = "")) as [Hk | Hk];
    repeat case_decide;
    repeat split; intros; try tauto; try discriminate; try congruence.
Qed.

(** X16. [GetDevice] checks ownership only when [user_id] parses: a
    requester whose well-formed [user_id] is not the owner is answered
    PermissionDenied, the owner gets the device, and with a [user_id] that
    does not parse the device is returned whoever owns it. *)
Theorem GetDevice_ownership_check repo format req deviceID device :
  uuid_Parse (gdDeviceId req) = Some deviceID →
  GetByID repo deviceID = (Some device, None) →
  (∀ userID, uuid_Parse (gdUserId req) = Some userID →
     devUserID device ≠ userID →
     DeviceService_GetDevice repo format req =
       inr (statusError PermissionDenied "device belongs to another user")) ∧
  (uuid_Parse (gdUserId req) = Some (devUserID device) →
     DeviceService_GetDevice repo format req = inl (toPB format device)) ∧
  (uuid_Parse (gdUserId req) = None →
     DeviceService_GetDevice repo format req = inl (toPB format device)).
Proof.
  intros Hid Hget. unfold DeviceService_GetDevice. rewrite Hid, Hget.
  split; [| split].
  - intros userID Hu Hne. rewrite Hu. case_decide; [reflexivity | contradiction].
  - intros Hu. rewrite Hu. case_decide; [contradiction | reflexivity].
  - intros Hu. now rewrite Hu.
Qed.

(** X17. [UpdateDevice] changes the database by at most one statement,
    and only on behalf of the owner: whenever the state changes, both
    identifiers parse, the device exists and belongs to the requester, the
    new name is not empty, and the statement is the update of that device's
    row with the requested name, the requested type (the stored one when
    the request's is empty), and the stored token and last-seen time. *)
Theorem UpdateDevice_only_by_owner {S} (db : Database S) format now req s r s' :
  DeviceService_UpdateDevice db format now req s = (r, s') →
  s' = s ∨
  ∃ deviceID device,
    uuid_Parse (udDeviceId req) = Some deviceID ∧
    uuid_Parse (udUserId req) = Some (devUserID device) ∧
    GetByID (reads db s) deviceID = (Some device, None) ∧
    udName req ≠ "" ∧
    s' = (exec db
            (UpdateDeviceRow (udName req)
               (if decide (udDeviceType req ≠ "") then udDeviceType req
                else devDeviceType device)
               (devDeviceToken device) (devLastSeenAt device) now
               (devID device)) s).2.
Proof.
  unfold DeviceService_UpdateDevice. intros Hrun.
  destruct (uuid_Parse (udDeviceId req)) as [deviceID |];
    [| injection Hrun as _ <-; now left].
  destruct (uuid_Parse (udUserId req)) as [userID |];
    [| injection Hrun as _ <-; now left].
  destruct (GetByID (reads db s) deviceID) as [[device |] [err |]] eqn:Hget;
    try (injection Hrun as _ <-; now left).
  case_decide as Hown; [injection Hrun as _ <-; now left |].
  destruct (Device_Validate _) as [e |] eqn:Hval;
    [injection Hrun as _ <-; now left |].
  assert (Hname : udName req ≠ "").
  { destruct (decide (udName req = "")) as [Hn | Hn]; [| exact Hn].
    unfold Device_Validate in Hval. simpl in Hval.
    rewrite decide_True in Hval by exact Hn. discriminate Hval. }
  unfold DeviceRepo_Update in Hrun. simpl in Hrun.
  destruct (exec db _ s) as [res s1] eqn:Hexec.
  right. exists deviceID, device.
  assert (Hu : devUserID device = userID).
  { destruct (decide (devUserID device = userID)); [done | contradiction]. }
  rewrite Hu. repeat split; auto.
  rewrite Hexec. simpl.
  destruct (execError res); injection Hrun as _ <-; reflexivity.
Qed.

(** X18. [DeleteDevice] changes the database by at most one statement,
    and only on behalf of the owner: whenever the state changes, both
    identifiers parse, the device exists and belongs to the requester, and
    the statement is the deletion of that device. *)
Theorem DeleteDevice_only_by_owner {S} (db : Database S) req s r s' :
  DeviceService_DeleteDevice db req s = (r, s') →
  s' = s ∨
  ∃ deviceID device,
    uuid_Parse (ddDeviceId req) = Some deviceID ∧
    uuid_Parse (ddUserId req) = Some (devUserID device) ∧
    GetByID (reads db s) deviceID = (Some device, None) ∧
    s' = (exec db (DeleteDeviceRow deviceID) s).2.
Proof.
  unfold DeviceService_DeleteDevice. intros Hrun.
  destruct (uuid_Parse (ddDeviceId req)) as [deviceID |];
    [| injection Hrun as _ <-; now left].
  destruct (uuid_Parse (ddUserId req)) as [userID |];
    [| injection Hrun as _ <-; now left].
  destruct (GetByID (reads db s) deviceID) as [[device |] [err |]] eqn:Hget;
    try (injection Hrun as _ <-; now left).
  case_decide as Hown; [injection Hrun as _ <-; now left |].
  unfold DeviceRepo_Delete in Hrun.
  destruct (exec db _ s) as [res s1] eqn:Hexec.
  right. exists deviceID, device.
  assert (Hu : devUserID device = userID).
  { destruct (decide (devUserID device = userID)); [done | contradiction]. }
  rewrite Hu. repeat split; auto.
  rewrite Hexec. simpl.
  destruct (execError res); injection Hrun as _ <-; reflexivity.
Qed.

(** X19. [RegisterDevice] inserts at most one row, and only a validated
    one: whenever the state changes, [user_id] parses, the type is desktop
    or mobile and the name is not empty, and the row inserted has the new
    identifier, the parsed owner, the requested name and type, the text of
    a new identifier as its token, and the time of the call as its three
    timestamps. A successful answer carries that token and identifier. *)
Theorem RegisterDevice_inserts_validated {S} (db : Database S) format
    newToken newID now req s r s' :
  DeviceService_RegisterDevice db format newToken newID now req s = (r, s') →
  (s' = s ∨
   ∃ userID,
     uuid_Parse (rdUserId req) = Some userID ∧
     (rdDeviceType req = "desktop" ∨ rdDeviceType req = "mobile") ∧
     rdName req ≠ "" ∧
     s' = (exec db
             (InsertDevice
                {| devID := newID; devUserID := userID;
                   devName := rdName req; devDeviceType := rdDeviceType req;
                   devDeviceToken := uuid_String newToken;
                   devLastSeenAt := now; devCreatedAt := now;
                   devUpdatedAt := now |}) s).2) ∧
  (∀ resp, r = inl resp →
     rdDeviceToken resp = uuid_String newToken ∧
     pbDeviceToken (rdDevice resp) = uuid_String newToken ∧
     pbId (rdDevice resp) = uuid_String newID).
Proof.
  unfold DeviceService_RegisterDevice. intros Hrun.
  destruct (uuid_Parse (rdUserId req)) as [userID |].
  2: { injection Hrun as <- <-. split; [now left | discriminate]. }
  case_decide as Htype.
  { injection Hrun as <- <-. split; [now left | discriminate]. }
  destruct (Device_Validate _) as [e |] eqn:Hval.
  { injection Hrun as <- <-. split; [now left | discriminate]. }
  assert (Hname : rdName req ≠ "").
  { destruct (decide (rdName req = "")) as [Hn | Hn]; [| exact Hn].
    unfold Device_Validate in Hval. simpl in Hval.
    rewrite decide_True in Hval by exact Hn. discriminate Hval. }
  assert (Hty : rdDeviceType req = "desktop" ∨ rdDeviceType req = "mobile").
  { unfold DeviceTypeDesktop, DeviceTypeMobile in Htype.
    destruct (decide (rdDeviceType req = "desktop")); [auto |].
    destruct (decide (rdDeviceType req = "mobile")); [auto | tauto]. }
  unfold DeviceRepo_Create in Hrun. simpl in Hrun.
  destruct (exec db _ s) as [res s1] eqn:Hexec.
  split.
  - right. exists userID. repeat split; auto. rewrite Hexec. simpl.
    destruct res; injection Hrun as _ <-; reflexivity.
  - intros resp Hr. subst r.
    destruct res; try discriminate Hrun; injection Hrun as <- _; repeat split.
Qed.

(** X20. A device that does not exist. [GetDevice], [UpdateDevice] and
    [DeleteDevice] look the device up first: for an identifier the
    repository has no row for they answer NotFound and execute nothing.
    [UpdateLastSeen] does not look it up: when its update affects no row
    it answers Internal. *)
Theorem missing_device_statuses {S} (db : Database S) format now
    greq ureq dreq lreq deviceID userID s :
  GetByID (reads db s) deviceID = (None, None) →
  (uuid_Parse (gdDeviceId greq) = Some deviceID →
   DeviceService_GetDevice (reads db s) format greq =
     inr (statusError NotFound "device not found")) ∧
  (uuid_Parse (udDeviceId ureq) = Some deviceID →
   uuid_Parse (udUserId ureq) = Some userID →
   DeviceService_UpdateDevice db format now ureq s =
     (inr (statusError NotFound "device not found"), s)) ∧
  (uuid_Parse (ddDeviceId dreq) = Some deviceID →
   uuid_Parse (ddUserId dreq) = Some userID →
   DeviceService_DeleteDevice db dreq s =
     (inr (statusError NotFound "device not found"), s)) ∧
  (uuid_Parse (ulDeviceId lreq) = Some deviceID →
   (exec db (TouchLastSeen now now deviceID) s).1 = Affected 0 →
   DeviceService_UpdateLastSeen db now lreq s =
     (inr (statusError Internal "failed to update last seen"),
      (exec db (TouchLastSeen now now deviceID) s).2)).
Proof.
  intros Hget. repeat split.
  - intros Hid. unfold DeviceService_GetDevice. now rewrite Hid, Hget.
  - intros Hid Hu. unfold DeviceService_UpdateDevice. now rewrite Hid, Hu, Hget.
  - intros Hid Hu. unfold DeviceService_DeleteDevice. now rewrite Hid, Hu, Hget.
  - intros Hid Hexec. unfold DeviceService_UpdateLastSeen, DeviceRepo_UpdateLastSeen.
    rewrite Hid. destruct (exec db _ s) as [res s1]. simpl in *. now subst.
Qed.

Lemma scanRows_spec rows : ∀ acc,
  (∀ ds, rows = map inl ds → scanRows rows acc = inl (acc ++ ds)) ∧
  (∀ e, inr e ∈ rows → ∃ e', scanRows rows acc = inr e').
Proof.
  clear. induction rows as [| [d | e0] rows IH]; intros acc; split.
  - intros ds Hds. destruct ds; [| discriminate]. now rewrite app_nil_r.
  - intros e He. now apply not_elem_of_nil in He.
  - intros ds Hds. destruct ds as [| d' ds]; [discriminate |].
    injection Hds as <- ->. simpl.
    rewrite (proj1 (IH (acc ++ [d])) ds eq_refl). now rewrite <- app_assoc.
  - intros e He. apply elem_of_cons in He as [He | He]; [discriminate |].
    simpl. exact (proj2 (IH (acc ++ [d])) e He).
  - intros ds Hds. destruct ds; discriminate.
  - intros e He. simpl. eauto.
Qed.

(** X22. [ListDevices] is all or nothing: when the query succeeds, every
    row scans and the iteration reports no error, the answer lists the
    rows in the order the query gave them, one entry per row; when the
    query fails, any row fails to scan or the iteration ends with an
    error, the answer is Internal and no partial list is returned. *)
Theorem ListDevices_all_or_nothing query format req userID :
  uuid_Parse (ldUserId req) = Some userID →
  (∀ ds, query userID = Rows (map inl ds) None →
     DeviceService_ListDevices query format req = inl (map (toPB format) ds)) ∧
  (∀ rows rowsErr e, query userID = Rows rows rowsErr →
     inr e ∈ rows ∨ rowsErr = Some e →
     DeviceService_ListDevices query format req =
       inr (statusError Internal "failed to list devices")) ∧
  (∀ e, query userID = QueryFails e →
     DeviceService_ListDevices query format req =
       inr (statusError Internal "failed to list devices")).
Proof.
  intros Hu. unfold DeviceService_ListDevices, DeviceRepo_GetByUserID.
  rewrite Hu. split; [| split].
  - intros ds Hq. rewrite Hq.
    now rewrite (proj1 (scanRows_spec (map inl ds) []) ds eq_refl).
  - intros rows rowsErr e Hq Hfail. rewrite Hq.
    destruct (scanRows rows []) as [ds | e'] eqn:Hscan; [| reflexivity].
    destruct Hfail as [Hin | ->]; [| reflexivity].
    destruct (proj2 (scanRows_spec rows []) e Hin) as [e' He'].
    congruence.
  - intros e Hq. now rewrite Hq.
Qed.

End Relay.

(** * The properties on concrete inputs *)

(** ** C1 *)

Lemma cross_account_offer_rejected_witness :
  (heap worldABC !! 3 = Some sessC ∧
   Type_ offerToB = "offer" ∧
   cParse (ToDeviceID offerToB) = Some 11%N ∧
   GetByID (deviceRepo worldABC) 11 = (Some devB, None) ∧
   devUserID devB ≠ UserID sessC ∧
   closed (Send sessC) = false ∧
   length (buf (Send sessC)) < sendCap) ∧
  broadcast (final (handleMessage cParse cString 3 offerToB worldABC)) = [] ∧
  errorEnqueued 3 worldABC
    (final (handleMessage cParse cString 3 offerToB worldABC)).
Proof.
  assert (Hne : devUserID devB ≠ UserID sessC) by (vm_compute; lia).
  assert (Hlen : length (buf (Send sessC)) < sendCap) by (vm_compute; lia).
  destruct (cross_account_offer_rejected cParse cString 3 sessC offerToB 11%N
              devB worldABC eq_refl eq_refl eq_refl eq_refl Hne)
    as ((Hb & _) & Hroom & _).
  destruct (Hroom eq_refl Hlen) as [e He].
  split; [repeat split; auto |]. split; [exact Hb |].
  rewrite He. exists sessC, (withSend sessC (pushBack (errorMessage e) (Send sessC))), e.
  split; [reflexivity |]. split; [apply lookup_insert_eq | reflexivity].
Defined.

(** C1 as stated fails when the sender's queue is full: C, of account 2,
    offers to B, of account 1, while 256 messages are pending for C. The
    offer is not submitted, but no error envelope reaches C's queue; the
    session only logs a warning. *)
Lemma cross_account_offer_full_queue_no_error :
  (heap worldCFull !! 3 = Some (withSend sessC fullChan) ∧
   Type_ offerToB = "offer" ∧
   cParse (ToDeviceID offerToB) = Some 11%N ∧
   GetByID (deviceRepo worldCFull) 11 = (Some devB, None) ∧
   devUserID devB ≠ UserID (withSend sessC fullChan)) ∧
  ∃ w', handleMessage cParse cString 3 offerToB worldCFull = Done tt w' ∧
    trace w' = [Log Warn [] "Failed to send error message"] ∧
    ¬ errorEnqueued 3 worldCFull w'.
Proof.
  assert (Hne : devUserID devB ≠ UserID (withSend sessC fullChan))
    by (vm_compute; lia).
  split; [repeat split; auto |].
  destruct (handleOffer_cross_account cParse cString 3 (withSend sessC fullChan)
              offerToB 11%N devB worldCFull eq_refl eq_refl eq_refl Hne)
    as [e He].
  eexists. split; [| split].
  - rewrite handleMessage_offer by reflexivity. rewrite He.
    now apply (sendError_full 3 (withSend sessC fullChan)).
  - reflexivity.
  - intros (cl & cl' & e' & H1 & H2 & H3). simpl in H1, H2.
    rewrite H1 in H2. injection H2 as <-.
    apply (f_equal length) in H3. rewrite length_app in H3. simpl in H3. lia.
Qed.

(** ** C2 *)

Lemma register_replaces_without_retiring_witness :
  (register worldConnecting = [1] ++ [4] ∧
   (∀ p, p ∈ [1] ++ [4] →
      ∃ c, heap worldConnecting !! p = Some c ∧ DeviceID c = 10%N)) ∧
  ∃ w', Hub_run cParse cString [caseRegister; caseRegister] worldConnecting =
          Done tt w' ∧
    clients w' !! 10%N = Some 4 ∧
    heap w' !! 1 = Some sessA ∧
    trace w' = [Log Info [("device_id", idA)] "Client registered";
                Log Info [("device_id", idA)] "Client registered"].
Proof.
  assert (Hall : ∀ p, p ∈ [1] ++ [4] →
            ∃ c, heap worldConnecting !! p = Some c ∧ DeviceID c = 10%N).
  { intros p Hp. apply list_elem_of_In in Hp. simpl in Hp.
    destruct Hp as [<- | [<- | []]]; eexists; split; reflexivity. }
  split; [split; [reflexivity | exact Hall] |].
  destruct (register_replaces_without_retiring cParse cString 10%N [1] 4
              worldConnecting eq_refl Hall)
    as (w' & Hrun & Hreg & _ & Hheap & Htrace).
  exists w'. split; [exact Hrun |]. split; [exact Hreg |].
  split; [now rewrite Hheap | exact Htrace].
Defined.

(** C2 as stated fails: device A is registered with session 1 and connects
    again as session 4. After the registration the registry holds session 4
    for A, but session 1 is not retired: its outbound queue is still open
    and its transport was not closed. *)
Lemma register_leaves_prior_session_open :
  (clients worldReconnect !! 10%N = Some 1 ∧
   heap worldReconnect !! 4 = Some sessA' ∧
   DeviceID sessA' = 10%N) ∧
  ∃ w', Hub_run_register cString 4 worldReconnect = Done tt w' ∧
    clients w' !! 10%N = Some 4 ∧
    heap w' !! 1 = Some sessA ∧
    closed (Send sessA) = false ∧
    (ConnClose (Conn sessA) ∉ trace w') ∧
    (¬ retired 1 w').
Proof.
  split; [repeat split |].
  eexists. split; [apply (Hub_run_register_spec cString 4 sessA'); reflexivity |].
  split; [reflexivity |]. split; [reflexivity |]. split; [reflexivity |].
  split.
  - simpl. intros H. apply list_elem_of_In in H. simpl in H.
    destruct H as [H | []]. discriminate.
  - intros (c & Hc & Hclosed & _). simpl in Hc.
    vm_compute in Hc. injection Hc as <-. discriminate.
Qed.

(** ** C3 *)

(** C3 fails on the code. [Hub.run] guards the removal by the presence of
    the key, not by the identity of the session. (1) Device A connects as
    session 1, reconnects as session 4, then session 1's read loop ends:
    its deregistration removes session 4's entry, so A is no longer
    reachable although session 4 is open, and it is session 1's queue that
    is closed. (2) When session 1 had already been evicted for a full queue
    before A reconnected, the same deregistration closes session 1's queue a
    second time and the hub panics. (3) That world is reached by the hub
    itself from a first session with a full queue. *)
Theorem unregister_of_replaced_session_removes_successor :
  (clients worldReplaced !! 10%N = Some 4 ∧
   ∃ w', Hub_run_unregister cString 1 worldReplaced = Done tt w' ∧
     clients w' !! 10%N = None ∧
     heap w' !! 4 = Some sessA' ∧
     heap w' !! 1 = Some (withSend sessA (closedChan makeChan))) ∧
  (clients worldEvicted !! 10%N = Some 4 ∧
   ∃ w', Hub_run_unregister cString 1 worldEvicted =
           Panic "close of closed channel" w' ∧
     clients w' !! 10%N = None) ∧
  (∃ w', Hub_run cParse cString
           [caseRegister; caseBroadcast; caseRegister; caseUnregister]
           worldRace = Panic "close of closed channel" w').
Proof.
  split; [| split].
  - split; [reflexivity |]. eexists. split; [vm_compute; reflexivity |].
    repeat split.
  - split; [reflexivity |]. eexists. split; [vm_compute; reflexivity |].
    reflexivity.
  - eexists. vm_compute. reflexivity.
Qed.

(** ** C4 *)



(** ** C5 *)

Lemma sender_identity_overwritten_witness :
  heap worldABC !! 1 = Some sessA ∧
  handleMessage cParse cString 1 (withFrom answerToB idC) worldABC =
    handleMessage cParse cString 1 answerToB worldABC ∧
  ∃ w' e, handleMessage cParse cString 1 (withFrom answerToB idC) worldABC =
            Done tt w' ∧
    broadcast w' = [e] ∧ FromDeviceID e = idA.
Proof.
  destruct (sender_identity_overwritten cParse cString 1 sessA answerToB idC
              worldABC eq_refl) as [Heq Hfrom].
  split; [reflexivity |]. split; [exact Heq |].
  rewrite Heq.
  destruct (handleMessage cParse cString 1 answerToB worldABC) as [[] w' | s w']
    eqn:Hrun; [| vm_compute in Hrun; discriminate].
  assert (Hq : ∃ e, broadcast w' = broadcast worldABC ++ [e]).
  { vm_compute in Hrun. injection Hrun as <-. eexists. reflexivity. }
  destruct Hq as [e Hq]. exists w', e. split; [reflexivity |].
  split; [exact Hq |]. exact (Hfrom w' e eq_refl Hq).
Defined.

(** ** C6 *)

Lemma failed_admission_rejected_witness :
  (upgrade (mkRequest idA "") = inl 9 ∧ device_token (mkRequest idA "") = "") ∧
  (∃ e, handleWebSocket cParse (mkRequest idA "") worldABC =
     Done tt (setTrace (λ t, t ++ [WriteJSON 9 (errorMessage e); ConnClose 9])
                worldABC)) ∧
  (∃ e, handleWebSocket cParse (mkRequest "not-a-uuid" "token-a") worldABC =
     Done tt (setTrace (λ t, t ++ [WriteJSON 9 (errorMessage e); ConnClose 9])
                worldABC)) ∧
  (∃ e, handleWebSocket cParse (mkRequest idA "no-such-token") worldABC =
     Done tt (setTrace (λ t, t ++ [WriteJSON 9 (errorMessage e); ConnClose 9])
                worldABC)) ∧
  (∃ e, handleWebSocket cParse (mkRequest idA "token-a")
          (setDeviceRepo brokenRepo worldABC) =
     Done tt (setTrace (λ t, t ++ [WriteJSON 9 (errorMessage e); ConnClose 9])
                (setDeviceRepo brokenRepo worldABC))) ∧
  (∃ e, handleWebSocket cParse (mkRequest idA "token-b") worldABC =
     Done tt (setTrace (λ t, t ++ [WriteJSON 9 (errorMessage e); ConnClose 9])
                worldABC)).
Proof.
  split; [split; reflexivity |]. repeat split.
  - apply (failed_admission_rejected cParse (mkRequest idA "") 9 worldABC eq_refl).
    right. left. reflexivity.
  - apply (failed_admission_rejected cParse (mkRequest "not-a-uuid" "token-a")
             9 worldABC eq_refl).
    right. right. left. reflexivity.
  - apply (failed_admission_rejected cParse (mkRequest idA "no-such-token")
             9 worldABC eq_refl).
    right. right. right. right. left. reflexivity.
  - apply (failed_admission_rejected cParse (mkRequest idA "token-a")
             9 (setDeviceRepo brokenRepo worldABC) eq_refl).
    right. right. right. left. eexists. reflexivity.
  - apply (failed_admission_rejected cParse (mkRequest idA "token-b")
             9 worldABC eq_refl).
    right. right. right. right. right. exists devB, 10%N.
    split; [reflexivity |]. split; [reflexivity |]. vm_compute. lia.
Defined.

(** ** C7 *)

Lemma dispatch_target_not_connected_witness :
  (cParse (ToDeviceID answerToB) = Some 11%N ∧
   clients worldReconnect !! 11%N = None) ∧
  Hub_run_broadcast cParse answerToB worldReconnect =
    Done tt (setTrace (λ t, t ++
      [Log Warn [("device_id", idB)] "Target device not connected"])
      worldReconnect).
Proof.
  split; [split; reflexivity |].
  apply (dispatch_target_not_connected cParse answerToB 11%N worldReconnect);
    reflexivity.
Defined.

(** ** C8 *)

Lemma dispatch_full_queue_evicts_witness :
  (cParse (ToDeviceID answerToC) = Some 12%N ∧
   clients worldCFull !! 12%N = Some 3 ∧
   heap worldCFull !! 3 = Some (withSend sessC fullChan) ∧
   closed fullChan = false ∧
   length (buf fullChan) = sendCap) ∧
  Hub_run_broadcast cParse answerToC worldCFull =
    Done tt (setClients (delete 12%N)
              (setHeap (insert 3 (withSend sessC (closedChan fullChan)))
                 worldCFull)).
Proof.
  split; [repeat split |].
  apply (dispatch_full_queue_evicts cParse answerToC 12%N 3
           (withSend sessC fullChan) worldCFull); reflexivity.
Defined.

(** ** C9 *)

Lemma answer_candidate_not_rechecked_witness :
  (heap worldABC !! 1 = Some sessA ∧ Type_ answerToC = "answer" ∧
   ToDeviceID answerToC ≠ "") ∧
  ∃ e, ToDeviceID e = idC ∧
    handleMessage cParse cString 1 answerToC worldABC =
      Done tt (setBroadcast (λ q, q ++ [e]) worldABC) ∧
    handleMessage cParse cString 1 answerToC (setDeviceRepo brokenRepo worldABC) =
      Done tt (setBroadcast (λ q, q ++ [e]) (setDeviceRepo brokenRepo worldABC)).
Proof.
  assert (Hto : ToDeviceID answerToC ≠ "") by discriminate.
  split; [repeat split; auto |].
  destruct (answer_candidate_not_rechecked cParse cString 1 sessA answerToC
              worldABC eq_refl (or_introl eq_refl)) as [Hfwd _].
  destruct (Hfwd Hto) as (e & _ & He & Hrun & Hrepo).
  exists e. split; [exact He |]. split; [exact Hrun | exact (Hrepo brokenRepo)].
Defined.

(** C9 as stated fails when the sender's queue is full: C sends an answer
    without [to_device_id] while 256 messages are pending for C. No error
    envelope reaches C's queue; the session only logs a warning. *)
Lemma answer_without_target_full_queue_no_error :
  (heap worldCFull !! 3 = Some (withSend sessC fullChan) ∧
   Type_ answerNoTarget = "answer" ∧ ToDeviceID answerNoTarget = "") ∧
  ∃ w', handleMessage cParse cString 3 answerNoTarget worldCFull = Done tt w' ∧
    trace w' = [Log Warn [] "Failed to send error message"] ∧
    ¬ errorEnqueued 3 worldCFull w'.
Proof.
  split; [repeat split |].
  destruct (handleMessage_no_target cParse cString 3 answerNoTarget worldCFull
              (or_introl eq_refl) eq_refl) as [e He].
  eexists. split; [| split].
  - rewrite He. now apply (sendError_full 3 (withSend sessC fullChan)).
  - reflexivity.
  - intros (cl & cl' & e' & H1 & H2 & H3). simpl in H1, H2.
    rewrite H1 in H2. injection H2 as <-.
    apply (f_equal length) in H3. rewrite length_app in H3. simpl in H3. lia.
Qed.

(** ** C10 *)

Lemma malformed_target_forwarded_then_ignored_witness :
  (heap worldABC !! 1 = Some sessA ∧
   Type_ answerMalformedTarget = "answer" ∧
   ToDeviceID answerMalformedTarget ≠ "" ∧
   cParse (ToDeviceID answerMalformedTarget) = None) ∧
  ∃ e, handleMessage cParse cString 1 answerMalformedTarget worldABC =
         Done tt (setBroadcast (λ q, q ++ [e]) worldABC) ∧
    ToDeviceID e = "not-a-uuid" ∧
    Hub_run_broadcast cParse e worldABC = Done tt worldABC.
Proof.
  assert (Hto : ToDeviceID answerMalformedTarget ≠ "") by discriminate.
  split; [repeat split; auto |].
  destruct (malformed_target_forwarded_then_ignored cParse cString 1 sessA
              answerMalformedTarget worldABC eq_refl (or_introl eq_refl) Hto
              eq_refl) as (e & Hrun & He & Hdrop).
  exists e. split; [exact Hrun |]. split; [exact He | exact (Hdrop worldABC)].
Defined.

(** * The further properties on concrete inputs *)

(** X1: device A connects to a server where A, B and C are connected. *)
Lemma admission_creates_session_witness :
  (upgrade (mkRequest idA "token-a") = inl 9 ∧
   cParse (device_id (mkRequest idA "token-a")) = Some 10%N ∧
   GetByToken (deviceRepo worldABC) "token-a" = (Some devA, None)) ∧
  ∃ w', handleWebSocket cParse (mkRequest idA "token-a") worldABC = Done tt w' ∧
    heap w' !! 4 = Some (mkClient 104 1 10 9 makeChan) ∧
    register w' = [4] ∧
    trace w' = [UpdateLastSeen 10%N; GoWritePump 4; GoReadPump 4].
Proof.
  split; [repeat split |].
  destruct (admission_creates_session cParse (mkRequest idA "token-a") 9 10%N
              devA worldABC eq_refl)
    as (_ & w' & Hrun & Hheap & Hreg & _ & _ & _ & Htrace);
    try reflexivity; try discriminate.
  exists w'. split; [exact Hrun |]. rewrite Hheap, Hreg, Htrace.
  repeat split.
Defined.

(** X2: the first connection to a fresh server. *)
Lemma connect_then_register_witness :
  register (NewServer repoABC) = [] ∧
  ∃ w', (handleWebSocket cParse (mkRequest idA "token-a");;
         Hub_run_iter cParse cString caseRegister) (NewServer repoABC) =
          Done tt w' ∧
    clients w' !! 10%N = Some 0 ∧ register w' = [].
Proof.
  split; [reflexivity |].
  destruct (connect_then_register cParse cString (mkRequest idA "token-a") 9
              10%N devA (NewServer repoABC) eq_refl)
    as (w' & Hrun & Hcl & Hreg & _);
    try reflexivity; try discriminate.
  exists w'. split; [exact Hrun |]. rewrite Hcl. split; [reflexivity | exact Hreg].
Defined.

(** X3: A offers to B, of the same account. *)
Lemma same_account_offer_forwarded_witness :
  (heap worldABC !! 1 = Some sessA ∧
   cParse (ToDeviceID offerToB) = Some 11%N ∧
   GetByID (deviceRepo worldABC) 11 = (Some devB, None) ∧
   devUserID devB = UserID sessA) ∧
  ∃ w', handleMessage cParse cString 1 offerToB worldABC = Done tt w' ∧
    broadcast w' =
      [{| Type_ := "offer"; FromDeviceID := idA; ToDeviceID := idB;
          SDP := SDP offerToB; Candidate := None; Error := ""; Data := "" |}].
Proof.
  split; [repeat split |].
  rewrite (same_account_offer_forwarded cParse cString 1 sessA offerToB 11%N
             devB worldABC eq_refl eq_refl); try reflexivity; try discriminate.
  eexists. split; reflexivity.
Defined.

(** X4: the envelope made of A's answer to C. *)
Lemma submitted_envelope_shape_witness :
  ∃ w', handleMessage cParse cString 1 answerToC worldABC = Done tt w' ∧
    broadcast w' ≠ broadcast worldABC ∧
    w' = setBroadcast (λ q, q ++ [envelopeOf cString 10%N answerToC]) worldABC.
Proof.
  destruct (handleMessage cParse cString 1 answerToC worldABC) as [[] w' | e w']
    eqn:Hrun; [| vm_compute in Hrun; discriminate].
  assert (Hne : broadcast w' ≠ broadcast worldABC).
  { vm_compute in Hrun. injection Hrun as <-. discriminate. }
  destruct (submitted_envelope_shape cParse cString 1 sessA answerToC worldABC
              w' eq_refl Hrun Hne) as (_ & _ & Hw & _).
  exists w'. split; [reflexivity |]. split; [exact Hne | exact Hw].
Defined.

(** X5: an offer and an answer for B, dispatched in that order. *)
Lemma dispatch_preserves_order_witness :
  (broadcast worldTwoForB = [offerToB; answerToB] ++ [] ∧
   clients worldTwoForB !! 11%N = Some 2 ∧
   heap worldTwoForB !! 2 = Some sessB) ∧
  ∃ w' c', Hub_run cParse cString [caseBroadcast; caseBroadcast] worldTwoForB =
             Done tt w' ∧
    heap w' !! 2 = Some c' ∧ buf (Send c') = [offerToB; answerToB].
Proof.
  split; [repeat split |].
  destruct (dispatch_preserves_order cParse cString 11%N 2 sessB
              [offerToB; answerToB] [] worldTwoForB eq_refl)
    as (w' & c' & Hrun & Hh & Hbuf & _);
    try reflexivity.
  { repeat constructor. }
  { vm_compute. lia. }
  exists w', c'. split; [exact Hrun |]. split; [exact Hh | exact Hbuf].
Defined.

(** X6: C's pump, with 256 messages queued, a tick between two receptions,
    the second write failing. *)
Lemma writePump_takes_queue_in_order_witness :
  heap worldCFull !! 3 = Some (withSend sessC fullChan) ∧
  ∃ ops k w',
    writePump 3 [FromSend 1 None; FromTicker 2 None; FromSend 3 (Some "broken pipe")]
      worldCFull = Done (Stopped, ops) w' ∧
    written ops = take k (buf fullChan) ∧
    clients w' = clients worldCFull.
Proof.
  split; [reflexivity |].
  destruct (writePump_takes_queue_in_order 3 (withSend sessC fullChan)
              [FromSend 1 None; FromTicker 2 None; FromSend 3 (Some "broken pipe")]
              worldCFull eq_refl)
    as (st & ops & k & w' & Hrun & Hwr & _ & _ & Hcl & _).
  assert (Hst : st = Stopped).
  { destruct st; [| reflexivity]. vm_compute in Hrun. discriminate. }
  subst st. exists ops, k, w'. split; [exact Hrun |].
  split; [exact Hwr | exact Hcl].
Defined.

(** X7: the offer and the answer for B reach B's transport in order. *)
Lemma dispatch_then_write_in_order_witness :
  (broadcast worldTwoForB = [offerToB; answerToB] ∧
   clients worldTwoForB !! 11%N = Some 2 ∧
   heap worldTwoForB !! 2 = Some sessB ∧ closed (Send sessB) = false) ∧
  ∃ ops w',
    (Hub_run cParse cString [caseBroadcast; caseBroadcast];;
     writePump 2 [FromSend 5 None; FromSend 6 None]) worldTwoForB =
      Done (Writing, ops) w' ∧
    written ops = [offerToB; answerToB].
Proof.
  split; [repeat split |].
  destruct (dispatch_then_write_in_order cParse cString 11%N 2 sessB
              [offerToB; answerToB] [5%Z; 6%Z] worldTwoForB eq_refl)
    as (ops & w' & Hrun & Hwr & _); try reflexivity.
  { repeat constructor. }
  { vm_compute. lia. }
  exists ops, w'. split; [exact Hrun | exact Hwr].
Defined.

(** X8: the first session of A, evicted with 256 messages queued. *)
Lemma writePump_drains_closed_queue_witness :
  (heap worldEvicted !! 1 = Some (withSend sessA (closedChan fullChan)) ∧
   closed (closedChan fullChan) = true) ∧
  ∃ ops w',
    writePump 1 (map (λ t, FromSend t None) (replicate 256 7%Z) ++
                 [FromSend 8 None]) worldEvicted =
      Done (Stopped,
            ops ++ [SetWriteDeadline 1 (8 + 10 * Second);
                    WriteMessage 1 CloseMessage;
                    TickerStop; Ev (ConnClose 1)]) w' ∧
    written ops = buf fullChan.
Proof.
  split; [repeat split |].
  destruct (writePump_drains_closed_queue 1 (replicate 256 7%Z) 8 None
              (buf fullChan) (withSend sessA (closedChan fullChan)) worldEvicted
              eq_refl eq_refl eq_refl eq_refl)
    as (ops & w' & Hrun & Hwr & _).
  exists ops, w'. split; [exact Hrun | exact Hwr].
Defined.

(** X9: the first write of C's pump fails. *)
Lemma writePump_failed_write_witness :
  (heap worldCFull !! 3 = Some (withSend sessC fullChan) ∧
   buf fullChan = errorMessage "pending" :: replicate 255 (errorMessage "pending")) ∧
  ∃ w', writePump 3 [FromSend 1 (Some "broken pipe")] worldCFull =
          Done (Stopped,
                [SetWriteDeadline 3 (1 + 10 * Second);
                 Ev (WriteJSON 3 (errorMessage "pending"));
                 Ev (Log Err [("error", "broken pipe")] "Failed to write message");
                 TickerStop; Ev (ConnClose 3)]) w' ∧
    clients w' !! 12%N = Some 3.
Proof.
  split; [repeat split |].
  rewrite (writePump_failed_write 3 (withSend sessC fullChan)
             (errorMessage "pending") (replicate 255 (errorMessage "pending"))
             1 "broken pipe" [] worldCFull eq_refl eq_refl).
  eexists. split; reflexivity.
Defined.

(** X10: A's session is deregistered twice. *)
Lemma unregister_twice_witness :
  (heap worldABC !! 1 = Some sessA ∧
   clients worldABC !! DeviceID sessA = Some 1 ∧
   closed (Send sessA) = false) ∧
  ∃ w1, Hub_run_unregister cString 1 worldABC = Done tt w1 ∧
    clients w1 !! 10%N = None ∧
    ∃ w2, Hub_run_unregister cString 1 w1 = Done tt w2 ∧ heap w2 = heap w1.
Proof.
  split; [repeat split |].
  destruct (unregister_twice cString 1 sessA worldABC eq_refl eq_refl eq_refl)
    as (w1 & Hrun & Hcl & _ & Hagain).
  exists w1. split; [exact Hrun |]. split; [rewrite Hcl; reflexivity |].
  eexists. split; [exact Hagain | reflexivity].
Defined.

(** X11: C is evicted for a full queue, then its read loop ends. *)
Lemma evict_then_unregister_witness :
  (cParse (ToDeviceID answerToC) = Some (DeviceID (withSend sessC fullChan)) ∧
   clients worldCFull !! 12%N = Some 3 ∧
   heap worldCFull !! 3 = Some (withSend sessC fullChan) ∧
   length (buf fullChan) = sendCap) ∧
  ∃ w', (Hub_run_broadcast cParse answerToC;;
         Hub_run_unregister cString 3) worldCFull = Done tt w' ∧
    clients w' !! 12%N = None ∧
    trace w' = [Log Info [("device_id", idC)] "Client unregistered"].
Proof.
  split; [repeat split |].
  rewrite (evict_then_unregister cParse cString answerToC 3
             (withSend sessC fullChan) worldCFull
             eq_refl eq_refl eq_refl eq_refl eq_refl).
  eexists. split; [reflexivity |]. split; reflexivity.
Defined.

(** X12: A has reconnected; the shutdown closes the transport of the
    second session and not that of the first. *)
Lemma Shutdown_closes_registered_witness :
  (∀ d p, clients worldReplaced !! d = Some p →
          is_Some (heap worldReplaced !! p)) ∧
  ∃ closes w', Shutdown worldReplaced = Done tt w' ∧
    trace w' = closes ∧ ConnClose 4 ∈ closes ∧ ConnClose 1 ∉ closes.
Proof.
  assert (Hall : ∀ d p, clients worldReplaced !! d = Some p →
                        is_Some (heap worldReplaced !! p)).
  { intros d p Hd. apply elem_of_map_to_list in Hd. vm_compute in Hd.
    apply list_elem_of_In in Hd. destruct Hd as [Hd | []].
    injection Hd as <- <-. eexists. reflexivity. }
  split; [exact Hall |].
  destruct (Shutdown_closes_registered worldReplaced Hall)
    as (closes & w' & Hrun & Htr & _ & _ & _ & _ & _ & Hiff).
  exists closes, w'. split; [exact Hrun |]. split; [exact Htr |]. split.
  - apply Hiff. exists 10%N, 4, sessA'. repeat split.
  - intros Hin. apply Hiff in Hin as (d & p & cl & Hd & Hp & He).
    apply elem_of_map_to_list in Hd. vm_compute in Hd.
    apply list_elem_of_In in Hd. destruct Hd as [Hd | []].
    injection Hd as <- <-. vm_compute in Hp. injection Hp as <-.
    discriminate He.
Defined.

(** X13: a fresh server after the handshake of A. *)
Lemma reachable_wellFormed_witness :
  reachable cParse cString repoABC
    (final (handleWebSocket cParse (mkRequest idA "token-a") (NewServer repoABC))) ∧
  wellFormed
    (final (handleWebSocket cParse (mkRequest idA "token-a") (NewServer repoABC))) ∧
  ∃ w', Hub_run_broadcast cParse answerToB
          (final (handleWebSocket cParse (mkRequest idA "token-a")
                    (NewServer repoABC))) = Done tt w'.
Proof.
  assert (Hreach : reachable cParse cString repoABC
            (final (handleWebSocket cParse (mkRequest idA "token-a")
                      (NewServer repoABC)))).
  { eapply reach_step; [apply reach_start | apply step_connect]. }
  destruct (reachable_wellFormed cParse cString repoABC _ Hreach) as [Hwf Hdone].
  split; [exact Hreach |]. split; [exact Hwf | exact (Hdone answerToB)].
Defined.

(** X15: device A is valid; a device without a name is not. *)
Lemma Validate_accepts_iff_witness :
  Device_Validate devA = None ∧
  Device_Validate (mkDevice 13 1 "") = Some "device name is required".
Proof.
  destruct (Validate_accepts_iff devA) as ([_ Hok] & _).
  destruct (Validate_accepts_iff (mkDevice 13 1 "")) as (_ & Hname & _).
  split.
  - apply Hok. repeat split; try discriminate. now left.
  - apply Hname. reflexivity.
Defined.

(** X16: device C is asked for by the owner of A, then with a [user_id]
    that is not an identifier. *)
Lemma GetDevice_ownership_check_witness :
  (cParse idC = Some 12%N ∧ GetByID repoABC 12 = (Some devC, None) ∧
   cParse idUser1 = Some 1%N ∧ devUserID devC ≠ 1%N ∧
   cParse "nobody" = None) ∧
  DeviceService_GetDevice cParse cString repoABC formatUnix
    {| gdDeviceId := idC; gdUserId := idUser1 |} =
    inr (statusError PermissionDenied "device belongs to another user") ∧
  DeviceService_GetDevice cParse cString repoABC formatUnix
    {| gdDeviceId := idC; gdUserId := "nobody" |} =
    inl (toPB cString formatUnix devC).
Proof.
  assert (Hne : devUserID devC ≠ 1%N) by (vm_compute; lia).
  split; [repeat split; auto |].
  split.
  - destruct (GetDevice_ownership_check cParse cString repoABC formatUnix
                {| gdDeviceId := idC; gdUserId := idUser1 |} 12%N devC
                eq_refl eq_refl) as (Hdenied & _).
    exact (Hdenied 1%N eq_refl Hne).
  - destruct (GetDevice_ownership_check cParse cString repoABC formatUnix
                {| gdDeviceId := idC; gdUserId := "nobody" |} 12%N devC
                eq_refl eq_refl) as (_ & _ & Hskip).
    exact (Hskip eq_refl).
Defined.

(** X17: the owner of A renames it; the owner of C tries to. *)
Lemma UpdateDevice_only_by_owner_witness :
  ∃ r s', DeviceService_UpdateDevice cParse cString tableDB formatUnix 5
            {| udDeviceId := idA; udUserId := idUser1; udName := "laptop";
               udDeviceType := "" |} [devA; devB; devC] = (r, s') ∧
    s' = (exec tableDB
            (UpdateDeviceRow "laptop" "desktop" "token-a" 0 5 10%N)
            [devA; devB; devC]).2 ∧
    s' ≠ [devA; devB; devC] ∧
    (DeviceService_UpdateDevice cParse cString tableDB formatUnix 5
       {| udDeviceId := idA; udUserId := idUser2; udName := "laptop";
          udDeviceType := "" |} [devA; devB; devC]).2 = [devA; devB; devC].
Proof.
  destruct (DeviceService_UpdateDevice cParse cString tableDB formatUnix 5
              {| udDeviceId := idA; udUserId := idUser1; udName := "laptop";
                 udDeviceType := "" |} [devA; devB; devC]) as [r s'] eqn:Hrun.
  assert (Hne : s' ≠ [devA; devB; devC]).
  { vm_compute in Hrun. injection Hrun as _ <-. discriminate. }
  destruct (UpdateDevice_only_by_owner cParse cString tableDB formatUnix 5 _ _ _ _
              Hrun) as [Hsame | (deviceID & device & Hid & _ & Hget & _ & Hs)].
  { contradiction. }
  exists r, s'. split; [reflexivity |]. split; [| split; [exact Hne | reflexivity]].
  vm_compute in Hid. injection Hid as <-.
  vm_compute in Hget. injection Hget as <-. exact Hs.
Defined.

(** X18: the owner of A deletes it. *)
Lemma DeleteDevice_only_by_owner_witness :
  ∃ r s', DeviceService_DeleteDevice cParse tableDB
            {| ddDeviceId := idA; ddUserId := idUser1 |} [devA; devB; devC] =
            (r, s') ∧
    s' = [devB; devC] ∧
    (DeviceService_DeleteDevice cParse tableDB
       {| ddDeviceId := idA; ddUserId := idUser2 |} [devA; devB; devC]).2 =
      [devA; devB; devC].
Proof.
  destruct (DeviceService_DeleteDevice cParse tableDB
              {| ddDeviceId := idA; ddUserId := idUser1 |} [devA; devB; devC])
    as [r s'] eqn:Hrun.
  assert (Hne : s' ≠ [devA; devB; devC]).
  { vm_compute in Hrun. injection Hrun as _ <-. discriminate. }
  destruct (DeleteDevice_only_by_owner cParse tableDB _ _ _ _ Hrun)
    as [Hsame | (deviceID & device & Hid & _ & _ & Hs)].
  { contradiction. }
  exists r, s'. split; [reflexivity |]. split; [| reflexivity].
  vm_compute in Hid. injection Hid as <-. rewrite Hs. reflexivity.
Defined.

(** X19: the account of A and B registers a phone. *)
Lemma RegisterDevice_inserts_validated_witness :
  ∃ resp s', DeviceService_RegisterDevice cParse cString tableDB formatUnix
               14 13 5
               {| rdUserId := idUser1; rdName := "phone";
                  rdDeviceType := "mobile" |} [devA] = (inl resp, s') ∧
    rdDeviceToken resp = cString 14 ∧
    pbId (rdDevice resp) = cString 13 ∧
    (DeviceService_RegisterDevice cParse cString tableDB formatUnix 14 13 5
       {| rdUserId := idUser1; rdName := "phone"; rdDeviceType := "tablet" |}
       [devA]).2 = [devA].
Proof.
  destruct (DeviceService_RegisterDevice cParse cString tableDB formatUnix
              14 13 5
              {| rdUserId := idUser1; rdName := "phone";
                 rdDeviceType := "mobile" |} [devA]) as [r s'] eqn:Hrun.
  destruct r as [resp | st]; [| vm_compute in Hrun; discriminate].
  destruct (RegisterDevice_inserts_validated cParse cString tableDB formatUnix
              14 13 5 _ _ _ _ Hrun) as (_ & Hresp).
  destruct (Hresp resp eq_refl) as (Htok & _ & Hid).
  exists resp, s'. split; [reflexivity |]. split; [exact Htok |].
  split; [exact Hid | reflexivity].
Defined.

(** X20: an identifier the table has no row for. *)
Lemma missing_device_statuses_witness :
  (GetByID (reads tableDB [devA]) 12 = (None, None) ∧
   (exec tableDB (TouchLastSeen 5 5 12%N) [devA]).1 = Affected 0) ∧
  DeviceService_DeleteDevice cParse tableDB
    {| ddDeviceId := idC; ddUserId := idUser2 |} [devA] =
    (inr (statusError NotFound "device not found"), [devA]) ∧
  DeviceService_UpdateLastSeen cParse tableDB 5 {| ulDeviceId := idC |} [devA] =
    (inr (statusError Internal "failed to update last seen"), [devA]).
Proof.
  split; [split; reflexivity |].
  destruct (missing_device_statuses cParse cString tableDB formatUnix 5
              {| gdDeviceId := idC; gdUserId := idUser2 |}
              {| udDeviceId := idC; udUserId := idUser2; udName := "x";
                 udDeviceType := "" |}
              {| ddDeviceId := idC; ddUserId := idUser2 |}
              {| ulDeviceId := idC |} 12%N 2%N [devA] eq_refl)
    as (_ & _ & Hdel & Htouch).
  split.
  - exact (Hdel eq_refl eq_refl).
  - exact (Htouch eq_refl eq_refl).
Defined.

(** X21: the first session of A, evicted by the hub (its queue is
    closed), sends an answer without target: the message handling panics
    on the closed queue, and the deferred calls still ask for the
    deregistration and close the transport. *)
Lemma readPump_effect_witness :
  heap worldEvicted !! 1 = Some (withSend sessA (closedChan fullChan)) ∧
  ∃ w', readPump cParse cString 1 0 [frame 1 answerNoTarget] worldEvicted =
          Panic "send on closed channel" w' ∧
    unregister w' = [1] ∧ clients w' = clients worldEvicted ∧
    ∃ logs, Forall isLog logs ∧
      trace w' = [SetReadDeadline 1 (0 + 60 * Second)] ++ logs ++ [ConnClose 1].
Proof.
  split; [reflexivity |].
  destruct (readPump_effect cParse cString 1
              (withSend sessA (closedChan fullChan)) 0
              [frame 1 answerNoTarget] worldEvicted eq_refl)
    as (Hcl & _ & _ & _ & _ & logs & Hlogs & Hmatch).
  destruct (readPump cParse cString 1 0 _ worldEvicted) as [[|] w' | e w'] eqn:Hrun;
    try (vm_compute in Hrun; discriminate).
  assert (He : e = "send on closed channel").
  { vm_compute in Hrun. now injection Hrun as <- _. }
  subst e. destruct Hmatch as [Hun Htr].
  exists w'. split; [reflexivity |]. split; [exact Hun |].
  split; [exact Hcl |]. exists logs. split; [exact Hlogs | exact Htr].
Defined.

(** X22: the devices of account 1, then a listing whose second row does
    not scan. *)
Lemma ListDevices_all_or_nothing_witness :
  cParse idUser1 = Some 1%N ∧
  DeviceService_ListDevices cParse cString
    (λ _, Rows [inl devA; inl devB] None) formatUnix {| ldUserId := idUser1 |} =
    inl [toPB cString formatUnix devA; toPB cString formatUnix devB] ∧
  DeviceService_ListDevices cParse cString
    (λ _, Rows [inl devA; inr "converting NULL to string"] None) formatUnix
    {| ldUserId := idUser1 |} =
    inr (statusError Internal "failed to list devices").
Proof.
  split; [reflexivity |]. split.
  - destruct (ListDevices_all_or_nothing cParse cString
                (λ _, Rows [inl devA; inl devB] None) formatUnix
                {| ldUserId := idUser1 |} 1%N eq_refl) as (Hok & _).
    exact (Hok [devA; devB] eq_refl).
  - destruct (ListDevices_all_or_nothing cParse cString
                (λ _, Rows [inl devA; inr "converting NULL to string"] None)
                formatUnix {| ldUserId := idUser1 |} 1%N eq_refl)
      as (_ & Hfail & _).
    apply (Hfail _ _ "converting NULL to string" eq_refl). left.
    apply elem_of_cons. right. apply elem_of_cons. now left.
Defined.
